(** * The whiteboard canvas engine of [src/components/traders/Whiteboard.tsx]

    A shallow embedding of the drawing engine: coordinate transforms,
    bounding boxes and hit-testing, the interaction handlers
    ([handleStart], [handleMove], [handleEnd], [handleTextCommit],
    [handleDelete], [clearCanvas], [handleWheel]) and the snapshot history
    ([saveToHistory], [handleUndo], [handleRedo]).

    JavaScript numbers are modelled as exact rationals [Q]: the geometric
    laws below are laws of exact arithmetic, which the binary64
    implementation follows up to rounding.  [Math.sqrt] is irrational in
    general and is kept abstract (a [Variable] of the engine section); a
    fixed-precision instance [Qsqrt] is used to run examples. *)

From Stdlib Require Import QArith Qminmax Qabs Qfield Qround ZArith List String Ascii
  Bool Lia Lqa.
Import ListNotations.

Open Scope Q_scope.

(** ** Numbers and comparisons *)

Definition Qleb (a b : Q) : bool := Qle_bool a b.
Definition Qltb (a b : Q) : bool := negb (Qle_bool b a).
Definition Qgeb (a b : Q) : bool := Qle_bool b a.
Definition Qgtb (a b : Q) : bool := negb (Qle_bool a b).

(** Square root rounded down to six decimals; exact on the squares of
    numbers with at most six decimals.  Only used to instantiate
    [Math_sqrt] in executable examples. *)
Definition Qsqrt (q : Q) : Q :=
  (Z.sqrt (Qnum q * 1000000000000 / Z.pos (Qden q)) # 1000000).

(** ** Strings

    A string is a sequence of code units; the model keeps the units below
    256.  [trim] is [String.prototype.trim]: it removes the leading and the
    trailing run of white space and line terminators. *)

Definition isWhiteSpace (c : ascii) : bool :=
  let n := nat_of_ascii c in
  (Nat.eqb n 9 || Nat.eqb n 10 || Nat.eqb n 11 || Nat.eqb n 12 ||
   Nat.eqb n 13 || Nat.eqb n 32 || Nat.eqb n 160)%bool.

Fixpoint trimStart (s : string) : string :=
  match s with
  | EmptyString => EmptyString
  | String c r => if isWhiteSpace c then trimStart r else s
  end.

Fixpoint trimEnd (s : string) : string :=
  match s with
  | EmptyString => EmptyString
  | String c r =>
      match trimEnd r with
      | EmptyString => if isWhiteSpace c then EmptyString else String c EmptyString
      | r' => String c r'
      end
  end.

Definition trim (s : string) : string := trimEnd (trimStart s).

(** Truthiness of a string value: [""] is falsy. *)
Definition truthy (s : string) : bool :=
  match s with EmptyString => false | _ => true end.

(** ** Data model *)

Record Point := mkPoint { ptX : Q; ptY : Q }.

Record Transform := mkTransform { scale : Q; offset : Point }.

Inductive ElementType :=
  Pencil | Eraser | Line | Arrow | Rectangle | Circle | Text.

Definition ElementType_eqb (a b : ElementType) : bool :=
  match a, b with
  | Pencil, Pencil | Eraser, Eraser | Line, Line | Arrow, Arrow
  | Rectangle, Rectangle | Circle, Circle | Text, Text => true
  | _, _ => false
  end.

Record CanvasElement := mkElement {
  id : string;
  type : ElementType;
  x : Q;
  y : Q;
  endX : option Q;
  endY : option Q;
  points : option (list Point);
  text : option string;
  color : string;
  size : Q;
  fontFamily : option string;
  fontSize : option Q
}.

Definition Document := list CanvasElement.

Record Bounds := mkBounds { minX : Q; minY : Q; maxX : Q; maxY : Q }.

(** [JSON.parse(JSON.stringify(d))]: a fresh, structurally equal copy.
    Absent optional fields stay absent and every number of the model is
    finite, so nothing is lost in the round trip. *)
Definition clonePoint (p : Point) : Point := mkPoint (ptX p) (ptY p).

Definition cloneElement (e : CanvasElement) : CanvasElement :=
  mkElement (id e) (type e) (x e) (y e) (endX e) (endY e)
            (option_map (map clonePoint) (points e)) (text e)
            (color e) (size e) (fontFamily e) (fontSize e).

Definition deepClone (d : Document) : Document := map cloneElement d.

(** ** Coordinate conversion *)

Definition screenToWorld (screenX screenY scale : Q) (offset : Point) : Point :=
  {| ptX := (screenX - ptX offset) / scale;
     ptY := (screenY - ptY offset) / scale |}.

Definition worldToScreen (worldX worldY scale : Q) (offset : Point) : Point :=
  {| ptX := worldX * scale + ptX offset;
     ptY := worldY * scale + ptY offset |}.

(** Equality of points up to the representation of the rationals. *)
Definition Point_equiv (p q : Point) : Prop :=
  ptX p == ptX q /\ ptY p == ptY q.

(** ** Bounding boxes *)

Definition isPath (t : ElementType) : bool :=
  match t with Pencil | Eraser => true | _ => false end.

(** [element.fontSize || 16] *)
Definition fontSizeOr16 (e : CanvasElement) : Q :=
  match fontSize e with
  | Some f => if Qeq_bool f 0 then 16 else f
  | None => 16
  end.

Definition pathBounds (p0 : Point) (ps : list Point) : Bounds :=
  fold_left
    (fun b point =>
       {| minX := Qmin (minX b) (ptX point);
          minY := Qmin (minY b) (ptY point);
          maxX := Qmax (maxX b) (ptX point);
          maxY := Qmax (maxY b) (ptY point) |})
    ps
    {| minX := ptX p0; minY := ptY p0; maxX := ptX p0; maxY := ptY p0 |}.

Definition getElementBounds (element : CanvasElement) : Bounds :=
  let fallback :=
    {| minX := x element; minY := y element;
       maxX := x element; maxY := y element |} in
  let shapeOrText :=
    match endX element, endY element with
    | Some ex, Some ey =>
        {| minX := Qmin (x element) ex; minY := Qmin (y element) ey;
           maxX := Qmax (x element) ex; maxY := Qmax (y element) ey |}
    | _, _ =>
        match type element, text element with
        | Text, Some txt =>
            if truthy txt then
              let textWidth :=
                (inject_Z (Z.of_nat (String.length txt)) * fontSizeOr16 element)
                * (6 # 10) in
              let textHeight := fontSizeOr16 element in
              {| minX := x element; minY := y element - textHeight;
                 maxX := x element + textWidth; maxY := y element |}
            else fallback
        | _, _ => fallback
        end
    end in
  if isPath (type element) then
    match points element with
    | Some (p0 :: ps) => pathBounds p0 (p0 :: ps)
    | _ => shapeOrText
    end
  else shapeOrText.

Section Engine.

(** [Math.sqrt] *)
Variable Math_sqrt : Q -> Q.

(** ** Distance from a point to a line segment *)

Definition pointToLineDistance (px py x1 y1 x2 y2 : Q) : Q :=
  let A := px - x1 in
  let B := py - y1 in
  let C := x2 - x1 in
  let D := y2 - y1 in
  let dot := A * C + B * D in
  let lenSq := C * C + D * D in
  let param := if negb (Qeq_bool lenSq 0) then dot / lenSq else - (1) in
  let xx := if Qltb param 0 then x1 else if Qgtb param 1 then x2 else x1 + param * C in
  let yy := if Qltb param 0 then y1 else if Qgtb param 1 then y2 else y1 + param * D in
  let dx := px - xx in
  let dy := py - yy in
  Math_sqrt (dx * dx + dy * dy).

(** ** Hit testing *)

(** The coarse rejection: the point lies outside the bounding box grown
    by the threshold. *)
Definition outsideBounds (worldX worldY : Q) (bounds : Bounds) (hitThreshold : Q) : bool :=
  (Qltb worldX (minX bounds - hitThreshold) || Qgtb worldX (maxX bounds + hitThreshold) ||
   Qltb worldY (minY bounds - hitThreshold) || Qgtb worldY (maxY bounds + hitThreshold))%bool.

Definition insideBounds (worldX worldY : Q) (bounds : Bounds) : bool :=
  (Qgeb worldX (minX bounds) && Qleb worldX (maxX bounds) &&
   Qgeb worldY (minY bounds) && Qleb worldY (maxY bounds))%bool.

(** The detailed test of the loop body, one branch per element type. *)
Definition detailedHit (worldX worldY : Q) (element : CanvasElement) (hitThreshold : Q) : bool :=
  let bounds := getElementBounds element in
  match type element, points element, endX element, endY element with
  | Pencil, Some pts, _, _
  | Eraser, Some pts, _, _ =>
      existsb
        (fun point =>
           Qleb (Math_sqrt ((worldX - ptX point) ^ 2 + (worldY - ptY point) ^ 2))
                hitThreshold)
        pts
  | Line, _, Some ex, Some ey
  | Arrow, _, Some ex, Some ey =>
      Qleb (pointToLineDistance worldX worldY (x element) (y element) ex ey) hitThreshold
  | Rectangle, _, Some _, Some _ => insideBounds worldX worldY bounds
  | Circle, _, Some ex, Some ey =>
      let centerX := (x element + ex) / 2 in
      let centerY := (y element + ey) / 2 in
      let radiusX := Qabs (ex - x element) / 2 in
      let radiusY := Qabs (ey - y element) / 2 in
      let radius := Qmax radiusX radiusY in
      let dist := Math_sqrt ((worldX - centerX) ^ 2 + (worldY - centerY) ^ 2) in
      Qleb (Qabs (dist - radius)) hitThreshold
  | Text, _, _, _ =>
      match text element with
      | Some txt => (truthy txt && insideBounds worldX worldY bounds)%bool
      | None => false
      end
  | _, _, _, _ => false
  end.

(** One iteration of the loop: [true] when the iteration returns the
    element, [false] when it falls through to the next index. *)
Definition hitsElement (worldX worldY : Q) (hitThreshold : Q) (element : CanvasElement) : bool :=
  if outsideBounds worldX worldY (getElementBounds element) hitThreshold
  then false
  else detailedHit worldX worldY element hitThreshold.

(** [for (let i = n - 1; i >= 0; i--)]: [scanDown n] visits the indices
    [n-1], ..., [0] in that order. *)
Fixpoint scanDown (worldX worldY : Q) (elements : list CanvasElement)
         (hitThreshold : Q) (n : nat) : option CanvasElement :=
  match n with
  | O => None
  | S i =>
      match nth_error elements i with
      | Some element =>
          if hitsElement worldX worldY hitThreshold element
          then Some element
          else scanDown worldX worldY elements hitThreshold i
      | None => scanDown worldX worldY elements hitThreshold i
      end
  end.

Definition getElementAtPosition (worldX worldY : Q) (elements : list CanvasElement)
           (hitThreshold : Q) : option CanvasElement :=
  scanDown worldX worldY elements hitThreshold (List.length elements).

End Engine.

(** ** Engine state

    The refs and the React state that the handlers read and write.  The
    values a handler closes over but never writes ([tool], [color], [size])
    and the browser environment of one event (the clock, the canvas and
    its bounding rectangle, the device pixel ratio) are gathered in [Env].
    Redraw scheduling is not part of the model. *)

Inductive Tool :=
  ToolPen | ToolEraser | ToolPan | ToolLine | ToolArrow | ToolRectangle
| ToolCircle | ToolText | ToolSelect.

Definition Tool_eqb (a b : Tool) : bool :=
  match a, b with
  | ToolPen, ToolPen | ToolEraser, ToolEraser | ToolPan, ToolPan
  | ToolLine, ToolLine | ToolArrow, ToolArrow | ToolRectangle, ToolRectangle
  | ToolCircle, ToolCircle | ToolText, ToolText | ToolSelect, ToolSelect => true
  | _, _ => false
  end.

Record Rect := mkRect { rectLeft : Q; rectTop : Q }.

Record Env := mkEnv {
  tool : Tool;
  brushColor : string;             (* the [color] state *)
  brushSize : Q;                   (* the [size] state *)
  now : string;                    (* [Date.now().toString()] *)
  canvas : option Rect;            (* [staticCanvasRef.current], with its bounding rectangle *)
  devicePixelRatio : Q             (* [window.devicePixelRatio], 0 when absent *)
}.

Inductive PointerEvent :=
| MouseEvent (button : Z) (shiftKey : bool) (clientX clientY : Q)
| TouchEvent (clientX clientY : Q).   (* [e.touches[0]] *)

Record WheelEvent := mkWheel {
  ctrlKey : bool; deltaX : Q; deltaY : Q; wheelClientX : Q; wheelClientY : Q
}.

Record TextInput := mkTextInput {
  tiX : Q; tiY : Q; worldX : Q; worldY : Q; elementId : option string
}.

(** The geometry captured when a drag starts. *)
Record DragStart := mkDragStart {
  dsX : Q; dsY : Q; dsEndX : option Q; dsEndY : option Q;
  dsPoints : option (list Point)
}.

Record State := mkState {
  elements : Document;
  currentElement : option CanvasElement;
  history : list Document;
  historyIndex : Z;
  redoStack : list Document;
  undoCount : Z;
  redoCount : Z;
  selectedElementId : option string;
  textInputState : option TextInput;
  isDrawing : bool;
  isPanning : bool;
  isDragging : bool;
  dragStartPos : Point;
  dragElementStartPos : DragStart;
  lastMousePos : Point;
  transform : Transform;
  saveCalls : nat
}.

(** Field updates. *)

Definition set_elements (v : Document) (s : State) : State :=
  mkState v (currentElement s) (history s) (historyIndex s) (redoStack s)
    (undoCount s) (redoCount s) (selectedElementId s) (textInputState s)
    (isDrawing s) (isPanning s) (isDragging s) (dragStartPos s)
    (dragElementStartPos s) (lastMousePos s) (transform s) (saveCalls s).

Definition set_currentElement (v : option CanvasElement) (s : State) : State :=
  mkState (elements s) v (history s) (historyIndex s) (redoStack s)
    (undoCount s) (redoCount s) (selectedElementId s) (textInputState s)
    (isDrawing s) (isPanning s) (isDragging s) (dragStartPos s)
    (dragElementStartPos s) (lastMousePos s) (transform s) (saveCalls s).

Definition set_history (v : list Document) (s : State) : State :=
  mkState (elements s) (currentElement s) v (historyIndex s) (redoStack s)
    (undoCount s) (redoCount s) (selectedElementId s) (textInputState s)
    (isDrawing s) (isPanning s) (isDragging s) (dragStartPos s)
    (dragElementStartPos s) (lastMousePos s) (transform s) (saveCalls s).

Definition set_historyIndex (v : Z) (s : State) : State :=
  mkState (elements s) (currentElement s) (history s) v (redoStack s)
    (undoCount s) (redoCount s) (selectedElementId s) (textInputState s)
    (isDrawing s) (isPanning s) (isDragging s) (dragStartPos s)
    (dragElementStartPos s) (lastMousePos s) (transform s) (saveCalls s).

Definition set_redoStack (v : list Document) (s : State) : State :=
  mkState (elements s) (currentElement s) (history s) (historyIndex s) v
    (undoCount s) (redoCount s) (selectedElementId s) (textInputState s)
    (isDrawing s) (isPanning s) (isDragging s) (dragStartPos s)
    (dragElementStartPos s) (lastMousePos s) (transform s) (saveCalls s).

Definition set_undoCount (v : Z) (s : State) : State :=
  mkState (elements s) (currentElement s) (history s) (historyIndex s)
    (redoStack s) v (redoCount s) (selectedElementId s) (textInputState s)
    (isDrawing s) (isPanning s) (isDragging s) (dragStartPos s)
    (dragElementStartPos s) (lastMousePos s) (transform s) (saveCalls s).

Definition set_redoCount (v : Z) (s : State) : State :=
  mkState (elements s) (currentElement s) (history s) (historyIndex s)
    (redoStack s) (undoCount s) v (selectedElementId s) (textInputState s)
    (isDrawing s) (isPanning s) (isDragging s) (dragStartPos s)
    (dragElementStartPos s) (lastMousePos s) (transform s) (saveCalls s).

Definition set_selectedElementId (v : option string) (s : State) : State :=
  mkState (elements s) (currentElement s) (history s) (historyIndex s)
    (redoStack s) (undoCount s) (redoCount s) v (textInputState s)
    (isDrawing s) (isPanning s) (isDragging s) (dragStartPos s)
    (dragElementStartPos s) (lastMousePos s) (transform s) (saveCalls s).

Definition set_textInputState (v : option TextInput) (s : State) : State :=
  mkState (elements s) (currentElement s) (history s) (historyIndex s)
    (redoStack s) (undoCount s) (redoCount s) (selectedElementId s) v
    (isDrawing s) (isPanning s) (isDragging s) (dragStartPos s)
    (dragElementStartPos s) (lastMousePos s) (transform s) (saveCalls s).

Definition set_isDrawing (v : bool) (s : State) : State :=
  mkState (elements s) (currentElement s) (history s) (historyIndex s)
    (redoStack s) (undoCount s) (redoCount s) (selectedElementId s)
    (textInputState s) v (isPanning s) (isDragging s) (dragStartPos s)
    (dragElementStartPos s) (lastMousePos s) (transform s) (saveCalls s).

Definition set_isPanning (v : bool) (s : State) : State :=
  mkState (elements s) (currentElement s) (history s) (historyIndex s)
    (redoStack s) (undoCount s) (redoCount s) (selectedElementId s)
    (textInputState s) (isDrawing s) v (isDragging s) (dragStartPos s)
    (dragElementStartPos s) (lastMousePos s) (transform s) (saveCalls s).

Definition set_isDragging (v : bool) (s : State) : State :=
  mkState (elements s) (currentElement s) (history s) (historyIndex s)
    (redoStack s) (undoCount s) (redoCount s) (selectedElementId s)
    (textInputState s) (isDrawing s) (isPanning s) v (dragStartPos s)
    (dragElementStartPos s) (lastMousePos s) (transform s) (saveCalls s).

Definition set_dragStartPos (v : Point) (s : State) : State :=
  mkState (elements s) (currentElement s) (history s) (historyIndex s)
    (redoStack s) (undoCount s) (redoCount s) (selectedElementId s)
    (textInputState s) (isDrawing s) (isPanning s) (isDragging s) v
    (dragElementStartPos s) (lastMousePos s) (transform s) (saveCalls s).

Definition set_dragElementStartPos (v : DragStart) (s : State) : State :=
  mkState (elements s) (currentElement s) (history s) (historyIndex s)
    (redoStack s) (undoCount s) (redoCount s) (selectedElementId s)
    (textInputState s) (isDrawing s) (isPanning s) (isDragging s)
    (dragStartPos s) v (lastMousePos s) (transform s) (saveCalls s).

Definition set_lastMousePos (v : Point) (s : State) : State :=
  mkState (elements s) (currentElement s) (history s) (historyIndex s)
    (redoStack s) (undoCount s) (redoCount s) (selectedElementId s)
    (textInputState s) (isDrawing s) (isPanning s) (isDragging s)
    (dragStartPos s) (dragElementStartPos s) v (transform s) (saveCalls s).

Definition set_transform (v : Transform) (s : State) : State :=
  mkState (elements s) (currentElement s) (history s) (historyIndex s)
    (redoStack s) (undoCount s) (redoCount s) (selectedElementId s)
    (textInputState s) (isDrawing s) (isPanning s) (isDragging s)
    (dragStartPos s) (dragElementStartPos s) (lastMousePos s) v (saveCalls s).

Definition set_saveCalls (v : nat) (s : State) : State :=
  mkState (elements s) (currentElement s) (history s) (historyIndex s)
    (redoStack s) (undoCount s) (redoCount s) (selectedElementId s)
    (textInputState s) (isDrawing s) (isPanning s) (isDragging s)
    (dragStartPos s) (dragElementStartPos s) (lastMousePos s) (transform s) v.

(** ** Arrays *)

(** [a[i]], [undefined] outside the array. *)
Definition lookup {A} (a : list A) (i : Z) : option A :=
  if (i <? 0)%Z then None else nth_error a (Z.to_nat i).

(** [a.slice(0, e)] *)
Definition slice0 {A} (a : list A) (e : Z) : list A :=
  let len := Z.of_nat (List.length a) in
  firstn (Z.to_nat (if (e <? 0)%Z then Z.max 0 (len + e) else e)) a.

(** [a.pop()]: the last entry and the shortened array. *)
Definition pop {A} (a : list A) : option (A * list A) :=
  match rev a with
  | [] => None
  | v :: r => Some (v, rev r)
  end.

Definition lengthZ {A} (a : list A) : Z := Z.of_nat (List.length a).

(** ** History manager *)

Definition MAX_HISTORY_STEPS : Z := 50.

(** Each call re-arms the 250 ms timer of the storage write. *)
Definition debouncedSave (s : State) : State :=
  set_saveCalls (S (saveCalls s)) s.

Definition saveToHistory (s : State) : State :=
  let snapshot := deepClone (elements s) in
  let s :=
    if (historyIndex s <? lengthZ (history s))%Z
    then set_history (slice0 (history s) (historyIndex s)) s
    else s in
  let s := set_history (history s ++ [snapshot]) s in
  let s := set_historyIndex (lengthZ (history s)) s in
  let s :=
    if (lengthZ (history s) >? MAX_HISTORY_STEPS)%Z
    then set_historyIndex (historyIndex s - 1) (set_history (tl (history s)) s)
    else s in
  let s := set_redoStack [] s in
  let s := set_redoCount 0%Z s in
  set_undoCount
    (if (lengthZ (history s) >? 1)%Z then lengthZ (history s) - 1 else 0)%Z s.

Definition handleUndo (s : State) : State :=
  if (historyIndex s >? 0)%Z then
    let currentSnapshot := deepClone (elements s) in
    let s := set_redoStack (redoStack s ++ [currentSnapshot]) s in
    let s := set_redoCount (lengthZ (redoStack s)) s in
    let s := set_historyIndex (historyIndex s - 1) s in
    match lookup (history s) (historyIndex s - 1) with
    | Some previousSnapshot =>
        let s := set_elements (deepClone previousSnapshot) s in
        let s :=
          set_undoCount
            (if (historyIndex s >? 0)%Z then historyIndex s - 1 else 0)%Z s in
        debouncedSave s
    | None => s
    end
  else s.

Definition handleRedo (s : State) : State :=
  match pop (redoStack s) with
  | Some (nextSnapshot, rest) =>
      let s := set_redoStack rest s in
      let s := set_redoCount (lengthZ (redoStack s)) s in
      let s := set_history (history s ++ [deepClone nextSnapshot]) s in
      let s := set_historyIndex (lengthZ (history s)) s in
      let s := set_elements (deepClone nextSnapshot) s in
      let s :=
        set_undoCount
          (if (historyIndex s >? 1)%Z then historyIndex s - 1 else 0)%Z s in
      debouncedSave s
  | None => s
  end.

(** The state after the mount effects.  The effect that seeds the history
    runs before the one that loads the stored document, so the seed is a
    snapshot of the empty document whatever [saved] holds.  [saved = None]
    stands for absent or malformed storage. *)
Definition initialState (saved : option Document) : State :=
  {| elements := match saved with Some d => d | None => [] end;
     currentElement := None;
     history := [deepClone []];
     historyIndex := 1;
     redoStack := [];
     undoCount := 0;
     redoCount := 0;
     selectedElementId := None;
     textInputState := None;
     isDrawing := false;
     isPanning := false;
     isDragging := false;
     dragStartPos := mkPoint 0 0;
     dragElementStartPos := mkDragStart 0 0 None None None;
     lastMousePos := mkPoint 0 0;
     transform := mkTransform 1 (mkPoint 0 0);
     saveCalls := 0 |}.

(** ** Interaction handlers *)

(** [window.devicePixelRatio || 1] *)
Definition dpr (env : Env) : Q :=
  if Qeq_bool (devicePixelRatio env) 0 then 1 else devicePixelRatio env.

Definition clientPos (e : PointerEvent) : Q * Q :=
  match e with
  | MouseEvent _ _ cx cy => (cx, cy)
  | TouchEvent cx cy => (cx, cy)
  end.

Definition getPointerPos (env : Env) (e : PointerEvent) : Point :=
  match canvas env with
  | None => mkPoint 0 0
  | Some rect =>
      let '(clientX, clientY) := clientPos e in
      let x := clientX - rectLeft rect in
      let y := clientY - rectTop rect in
      mkPoint (x * dpr env) (y * dpr env)
  end.

(** A selection id that passes [if (selectedElementId)]. *)
Definition selectedId (s : State) : option string :=
  match selectedElementId s with
  | Some sel => if truthy sel then Some sel else None
  | None => None
  end.

(** The element type a drawing tool creates. *)
Definition shapeType (t : Tool) : option ElementType :=
  match t with
  | ToolLine => Some Line
  | ToolArrow => Some Arrow
  | ToolRectangle => Some Rectangle
  | ToolCircle => Some Circle
  | _ => None
  end.

Definition isPathTool (t : Tool) : bool :=
  match t with ToolPen | ToolEraser => true | _ => false end.

(** In-place update of the element that [elements.find] returns: the
    first one that satisfies [p]. *)
Fixpoint updateFirst (p : CanvasElement -> bool)
         (f : CanvasElement -> CanvasElement) (l : Document) : Document :=
  match l with
  | [] => []
  | e :: r => if p e then f e :: r else e :: updateFirst p f r
  end.

Definition set_endpoint (ex ey : option Q) (e : CanvasElement) : CanvasElement :=
  mkElement (id e) (type e) (x e) (y e) ex ey (points e) (text e)
            (color e) (size e) (fontFamily e) (fontSize e).

Definition set_points (pts : option (list Point)) (e : CanvasElement) : CanvasElement :=
  mkElement (id e) (type e) (x e) (y e) (endX e) (endY e) pts (text e)
            (color e) (size e) (fontFamily e) (fontSize e).

Definition set_origin (nx ny : Q) (e : CanvasElement) : CanvasElement :=
  mkElement (id e) (type e) nx ny (endX e) (endY e) (points e) (text e)
            (color e) (size e) (fontFamily e) (fontSize e).

(** The drag update of [handleMove], applied to the dragged element.  A
    captured end point that is absent would make the sum [NaN]; the model
    then leaves the end point absent.  [handleStart] captures the geometry
    of the very element it selects, so a drag it started never gets there. *)
Definition dragElement (start : DragStart) (deltaX deltaY : Q)
           (element : CanvasElement) : CanvasElement :=
  let element := set_origin (dsX start + deltaX) (dsY start + deltaY) element in
  let element :=
    match endX element, endY element with
    | Some _, Some _ =>
        set_endpoint (option_map (fun v => v + deltaX) (dsEndX start))
                     (option_map (fun v => v + deltaY) (dsEndY start)) element
    | _, _ => element
    end in
  match points element, dsPoints start with
  | Some _, Some pts =>
      set_points
        (Some (map (fun p => mkPoint (ptX p + deltaX) (ptY p + deltaY)) pts))
        element
  | _, _ => element
  end.

(** The validity test of [handleEnd]. *)
Definition isValid (cur : CanvasElement) : bool :=
  let longPath :=
    match points cur with
    | Some pts => (isPath (type cur) && (1 <? List.length pts)%nat)%bool
    | None => false
    end in
  if longPath then true
  else
    match endX cur, endY cur with
    | Some ex, Some ey =>
        let dx := ex - x cur in
        let dy := ey - y cur in
        (Qgtb (Qabs dx) 1 || Qgtb (Qabs dy) 1)%bool
    | _, _ => false
    end.

Section Interaction.

Variable Math_sqrt : Q -> Q.

Definition handleStart (env : Env) (e : PointerEvent) (s : State) : State :=
  let isMouseEvent := match e with MouseEvent _ _ _ _ => true | _ => false end in
  let isMiddleClick := match e with MouseEvent b _ _ _ => (b =? 1)%Z | _ => false end in
  let isSpaceClick := match e with MouseEvent _ sh _ _ => sh | _ => false end in
  let otherButton := match e with MouseEvent b _ _ _ => negb (b =? 0)%Z | _ => false end in
  if (Tool_eqb (tool env) ToolPan || isMiddleClick || isSpaceClick)%bool then
    let s := set_isPanning true s in
    set_lastMousePos (getPointerPos env e) s
  else if (isMouseEvent && otherButton)%bool then s
  else
    let pos := getPointerPos env e in
    let worldPos :=
      screenToWorld (ptX pos) (ptY pos) (scale (transform s)) (offset (transform s)) in
    (* selection tool: [inl] is the early return, [inr] falls through *)
    let selection : State + State :=
      if Tool_eqb (tool env) ToolSelect then
        match getElementAtPosition Math_sqrt (ptX worldPos) (ptY worldPos) (elements s)
                                   (5 / scale (transform s)) with
        | Some hitElement =>
            let s := set_selectedElementId (Some (id hitElement)) s in
            let s := set_isDragging true s in
            let s := set_dragStartPos worldPos s in
            match find (fun el => String.eqb (id el) (id hitElement)) (elements s) with
            | Some element =>
                inl (set_dragElementStartPos
                       {| dsX := x element; dsY := y element;
                          dsEndX := endX element; dsEndY := endY element;
                          dsPoints := option_map (map clonePoint) (points element) |} s)
            | None => inl s
            end
        | None => inr (set_selectedElementId None s)
        end
      else inr s in
    match selection with
    | inl s => s
    | inr s =>
        if Tool_eqb (tool env) ToolText then
          match canvas env with
          | Some rect =>
              let screenPos :=
                worldToScreen (ptX worldPos) (ptY worldPos)
                              (scale (transform s)) (offset (transform s)) in
              set_textInputState
                (Some {| tiX := rectLeft rect + ptX screenPos / dpr env;
                         tiY := rectTop rect + ptY screenPos / dpr env;
                         worldX := ptX worldPos;
                         worldY := ptY worldPos;
                         elementId := None |}) s
          | None => s
          end
        else
          let s := set_isDrawing true s in
          if isPathTool (tool env) then
            set_currentElement
              (Some {| id := now env;
                       type := if Tool_eqb (tool env) ToolEraser then Eraser else Pencil;
                       x := ptX worldPos;
                       y := ptY worldPos;
                       endX := None; endY := None;
                       points := Some [worldPos];
                       text := None;
                       color := if Tool_eqb (tool env) ToolEraser
                                then "#FFFFFF"%string else brushColor env;
                       size := brushSize env;
                       fontFamily := None; fontSize := None |}) s
          else
            match shapeType (tool env) with
            | Some ty =>
                set_currentElement
                  (Some {| id := now env;
                           type := ty;
                           x := ptX worldPos;
                           y := ptY worldPos;
                           endX := Some (ptX worldPos);
                           endY := Some (ptY worldPos);
                           points := None;
                           text := None;
                           color := brushColor env;
                           size := brushSize env;
                           fontFamily := None; fontSize := None |}) s
            | None => s
            end
    end.

End Interaction.

Definition handleMove (env : Env) (e : PointerEvent) (s : State) : State :=
  let pos := getPointerPos env e in
  if isPanning s then
    let dx := ptX pos - ptX (lastMousePos s) in
    let dy := ptY pos - ptY (lastMousePos s) in
    let s :=
      set_transform
        {| scale := scale (transform s);
           offset := mkPoint (ptX (offset (transform s)) + dx)
                             (ptY (offset (transform s)) + dy) |} s in
    set_lastMousePos pos s
  else
    match (if isDragging s then selectedId s else None) with
    | Some sel =>
        let worldPos :=
          screenToWorld (ptX pos) (ptY pos) (scale (transform s)) (offset (transform s)) in
        let deltaX := ptX worldPos - ptX (dragStartPos s) in
        let deltaY := ptY worldPos - ptY (dragStartPos s) in
        set_elements
          (updateFirst (fun el => String.eqb (id el) sel)
                       (dragElement (dragElementStartPos s) deltaX deltaY)
                       (elements s)) s
    | None =>
        match (if isDrawing s then currentElement s else None) with
        | Some cur =>
            let worldPos :=
              screenToWorld (ptX pos) (ptY pos) (scale (transform s))
                            (offset (transform s)) in
            match ElementType_eqb (type cur) Pencil, points cur with
            | true, Some pts =>
                set_currentElement (Some (set_points (Some (pts ++ [worldPos])) cur)) s
            | _, _ =>
                match endX cur, endY cur with
                | Some _, Some _ =>
                    set_currentElement
                      (Some (set_endpoint (Some (ptX worldPos)) (Some (ptY worldPos)) cur)) s
                | _, _ => s
                end
            end
        | None => s
        end
    end.

Definition handleEnd (s : State) : State :=
  if isPanning s then set_isPanning false s
  else if isDragging s then
    let s := set_isDragging false s in
    let s := saveToHistory s in
    debouncedSave s
  else
    match (if isDrawing s then currentElement s else None) with
    | Some cur =>
        let s := set_isDrawing false s in
        let s :=
          if isValid cur then
            let s := saveToHistory s in
            let s := set_elements (elements s ++ [cur]) s in
            debouncedSave s
          else s in
        set_currentElement None s
    | None => s
    end.

Definition handleDelete (s : State) : State :=
  match selectedId s with
  | Some sel =>
      let s := saveToHistory s in
      let s :=
        set_elements (filter (fun el => negb (String.eqb (id el) sel)) (elements s)) s in
      let s := set_selectedElementId None s in
      debouncedSave s
  | None => s
  end.

Definition clearCanvas (s : State) : State :=
  let s := set_elements [] s in
  set_undoCount 0%Z s.

Definition handleTextCommit (env : Env) (text : string) (s : State) : State :=
  match textInputState s with
  | None => set_textInputState None s
  | Some ti =>
      if negb (truthy (trim text)) then set_textInputState None s
      else
        match canvas env with
        | None => set_textInputState None s
        | Some _ =>
            let newElement :=
              {| id := now env;
                 type := Text;
                 x := worldX ti;
                 y := worldY ti;
                 endX := None; endY := None;
                 points := None;
                 text := Some (trim text);
                 color := brushColor env;
                 size := brushSize env;
                 fontFamily := Some "Arial"%string;
                 fontSize := Some 16 |} in
            let s := saveToHistory s in
            let s := set_elements (elements s ++ [newElement]) s in
            let s := debouncedSave s in
            set_textInputState None s
        end
  end.

(** The canvas point of a wheel event (device pixels). *)
Definition wheelCanvasPos (env : Env) (rect : Rect) (e : WheelEvent) : Point :=
  let x := wheelClientX e - rectLeft rect in
  let y := wheelClientY e - rectTop rect in
  mkPoint (x * dpr env) (y * dpr env).

Definition handleWheel (env : Env) (e : WheelEvent) (s : State) : State :=
  let scale := scale (transform s) in
  let offset := offset (transform s) in
  match canvas env with
  | None => s
  | Some rect =>
      if ctrlKey e then
        let zoomSensitivity := 1 # 1000 in
        let delta := - deltaY e * zoomSensitivity in
        let newScale := Qmin (Qmax (1 # 10) (scale + delta)) 10 in
        let canvasX := ptX (wheelCanvasPos env rect e) in
        let canvasY := ptY (wheelCanvasPos env rect e) in
        let worldX := (canvasX - ptX offset) / scale in
        let worldY := (canvasY - ptY offset) / scale in
        let newOffsetX := canvasX - worldX * newScale in
        let newOffsetY := canvasY - worldY * newScale in
        set_transform {| scale := newScale; offset := mkPoint newOffsetX newOffsetY |} s
      else
        let newOffsetX := ptX offset - deltaX e * dpr env in
        let newOffsetY := ptY offset - deltaY e * dpr env in
        set_transform {| scale := scale; offset := mkPoint newOffsetX newOffsetY |} s
  end.

(** ** Events and traces

    One constructor per way a handler is reached from the page: the
    pointer listeners of the active canvas, the text overlay, the keyboard
    handler, the toolbar buttons and the wheel listener. *)

Inductive Event :=
| PointerDown (e : PointerEvent)     (* [handleStart] *)
| PointerMove (e : PointerEvent)     (* [handleMove] *)
| PointerUp                          (* [handleEnd] *)
| TextCommit (text : string)         (* blur or Enter in the overlay *)
| TextCancel                         (* Escape in the overlay *)
| DeleteKey                          (* Delete or Backspace *)
| EscapeKey
| ClearButton
| Wheel (e : WheelEvent)
| Undo
| Redo.

(** Every event but undo and redo. *)
Definition isEdit (ev : Event) : bool :=
  match ev with Undo | Redo => false | _ => true end.

Section Traces.

Variable Math_sqrt : Q -> Q.

Definition step (env : Env) (ev : Event) (s : State) : State :=
  match ev with
  | PointerDown e => handleStart Math_sqrt env e s
  | PointerMove e => handleMove env e s
  | PointerUp => handleEnd s
  | TextCommit text => handleTextCommit env text s
  | TextCancel => set_textInputState None s
  | DeleteKey => handleDelete s
  | EscapeKey => set_selectedElementId None s
  | ClearButton => clearCanvas s
  | Wheel e => handleWheel env e s
  | Undo => handleUndo s
  | Redo => handleRedo s
  end.

Fixpoint run (tr : list (Env * Event)) (s : State) : State :=
  match tr with
  | [] => s
  | (env, ev) :: rest => run rest (step env ev s)
  end.

End Traces.

(** What an event commits to the document in a given state, read off the
    guards of its handler. *)
Inductive CommitKind :=
| NoCommit
| AddCommit        (* a stroke, a shape or a text is appended *)
| DragCommit       (* a drag ends *)
| DeleteCommit     (* the selected element is removed *)
| ClearCommit.     (* the document is emptied *)

Definition commitKind (env : Env) (ev : Event) (s : State) : CommitKind :=
  match ev with
  | PointerUp =>
      if isPanning s then NoCommit
      else if isDragging s then DragCommit
      else
        match (if isDrawing s then currentElement s else None) with
        | Some cur => if isValid cur then AddCommit else NoCommit
        | None => NoCommit
        end
  | TextCommit text =>
      match textInputState s, canvas env with
      | Some _, Some _ => if truthy (trim text) then AddCommit else NoCommit
      | _, _ => NoCommit
      end
  | DeleteKey =>
      match selectedId s with Some _ => DeleteCommit | None => NoCommit end
  | ClearButton => ClearCommit
  | _ => NoCommit
  end.

Definition isCommit (k : CommitKind) : bool :=
  match k with NoCommit => false | _ => true end.

Definition isAddOrNone (k : CommitKind) : bool :=
  match k with NoCommit | AddCommit => true | _ => false end.

Section TraceCounts.

Variable Math_sqrt : Q -> Q.

(** The number of committed mutations along a trace. *)
Fixpoint countCommits (tr : list (Env * Event)) (s : State) : nat :=
  match tr with
  | [] => O
  | (env, ev) :: rest =>
      ((if isCommit (commitKind env ev s) then 1 else 0)
       + countCommits rest (step Math_sqrt env ev s))%nat
  end.

(** Every commit of the trace appends an element. *)
Fixpoint onlyAdds (tr : list (Env * Event)) (s : State) : bool :=
  match tr with
  | [] => true
  | (env, ev) :: rest =>
      (isAddOrNone (commitKind env ev s) && onlyAdds rest (step Math_sqrt env ev s))%bool
  end.

End TraceCounts.

(** [times n f s]: [f] called [n] times in a row. *)
Fixpoint times {A} (n : nat) (f : A -> A) (s : A) : A :=
  match n with
  | O => s
  | S m => times m f (f s)
  end.

(** The last [n] entries of an array. *)
Definition lastn {A} (n : nat) (l : list A) : list A :=
  skipn (List.length l - n) l.

(** White-space-only strings, the empty one included. *)
Fixpoint isBlank (s : string) : bool :=
  match s with
  | EmptyString => true
  | String c r => (isWhiteSpace c && isBlank r)%bool
  end.

Definition startsWithSpace (s : string) : bool :=
  match s with String c _ => isWhiteSpace c | EmptyString => false end.

Fixpoint endsWithSpace (s : string) : bool :=
  match s with
  | EmptyString => false
  | String c EmptyString => isWhiteSpace c
  | String _ r => endsWithSpace r
  end.

(** The part of the state that the history manager owns. *)
Definition historyState (s : State) : list Document * Z * list Document :=
  (history s, historyIndex s, redoStack s).

(** No interaction in progress. *)
Definition idle (s : State) : Prop :=
  isPanning s = false /\ isDragging s = false /\ isDrawing s = false /\
  currentElement s = None.

(** ** Sample values *)

Definition sampleEnv (t : Tool) : Env :=
  mkEnv t "#000000" 3 "1700000000000" (Some (mkRect 0 0)) 1.

Definition mouseAt (cx cy : Q) : PointerEvent := MouseEvent 0 false cx cy.

Definition sampleRect : CanvasElement :=
  mkElement "r" Rectangle (-20) (-20) (Some 20) (Some 20) None None
            "#000000" 3 None None.

(** A flat ellipse: 20 wide, 4 high. *)
Definition sampleEllipse : CanvasElement :=
  mkElement "c" Circle (-10) (-2) (Some 10) (Some 2) None None
            "#000000" 3 None None.

Definition sampleStroke : CanvasElement :=
  mkElement "p" Pencil 0 0 None None (Some [mkPoint 0 0; mkPoint 10 10]) None
            "#000000" 3 None None.

Definition penEnv : Env := sampleEnv ToolPen.

(** A pencil stroke from (0,0) to (10,10): down, one move, up. *)
Definition strokeTrace : list (Env * Event) :=
  [ (penEnv, PointerDown (mouseAt 0 0));
    (penEnv, PointerMove (mouseAt 10 10));
    (penEnv, PointerUp) ].

(** [n] such strokes in a row. *)
Definition strokes (n : nat) : list (Env * Event) := List.concat (repeat strokeTrace n).

Definition sixtyStrokes : list (Env * Event) := strokes 60.

(** The select tool grabs the stroke at (0,0) and drags it by (5,5). *)
Definition dragTrace : list (Env * Event) :=
  [ (sampleEnv ToolSelect, PointerDown (mouseAt 0 0));
    (sampleEnv ToolSelect, PointerMove (mouseAt 5 5));
    (sampleEnv ToolSelect, PointerUp) ].

(** A click of the select tool at (0,0): press and release. *)
Definition selectClick : list (Env * Event) :=
  [ (sampleEnv ToolSelect, PointerDown (mouseAt 0 0));
    (sampleEnv ToolSelect, PointerUp) ].

(** A stroke, three clicks on it and its deletion: five commits, after
    which the document is empty again. *)
Definition strokeAndDelete : list (Env * Event) :=
  strokeTrace ++ selectClick ++ selectClick ++ selectClick
  ++ [ (sampleEnv ToolSelect, DeleteKey) ].

Definition twelveRounds : list (Env * Event) :=
  List.concat (repeat strokeAndDelete 12).

(** The element that [strokeTrace] commits. *)
Definition sampleStroke1 : CanvasElement :=
  mkElement "1700000000000" Pencil 0 0 None None
            (Some [mkPoint 0 0; mkPoint 10 10]) None "#000000" 3 None None.

(** The last entry of an array, if any. *)
Definition last_error {A} (l : list A) : option A := hd_error (rev l).

(** ** Runs, commits and invariants *)

Definition editsOnly (tr : list (Env * Event)) : bool :=
  forallb (fun p => isEdit (snd p)) tr.

(** The effect of one edit event, by the kind of commit it carries out. *)
Definition stepEffect (k : CommitKind) (s s' : State) : Prop :=
  match k with
  | NoCommit =>
      historyState s' = historyState s /\
      List.length (elements s') = List.length (elements s)
  | AddCommit =>
      historyState s' = historyState (saveToHistory s) /\
      exists e, elements s' = elements s ++ [e]
  | DragCommit =>
      historyState s' = historyState (saveToHistory s) /\
      elements s' = elements s
  | DeleteCommit =>
      historyState s' = historyState (saveToHistory s) /\
      exists sel, elements s' =
                  filter (fun el => negb (String.eqb (id el) sel)) (elements s)
  | ClearCommit =>
      historyState s' = historyState s /\ elements s' = []
  end.

(** The board after [k <= 50] commits on a fresh start.  The index is at
    the end of the history, which holds 50 entries at most; its oldest
    entry is a snapshot of the empty document; while the seed is its only
    entry the document is empty; and until the 50th commit its second
    entry, taken at the first commit that takes a snapshot, is a snapshot
    of the empty document too (it becomes the oldest entry when the seed
    is dropped). *)
Definition FreshInv (k : nat) (s : State) : Prop :=
  historyIndex s = lengthZ (history s) /\
  (1 <= List.length (history s) <= Nat.min (k + 1) 50)%nat /\
  nth_error (history s) 0 = Some [] /\
  redoStack s = [] /\
  (List.length (history s) = 1%nat -> elements s = []) /\
  ((k <= 49)%nat -> (2 <= List.length (history s))%nat ->
   nth_error (history s) 1 = Some []).

(** The board after exactly [k] commits, all of which appended an
    element: the sizes of the snapshots are the last 50 of 0, 0, 1, ...,
    [k - 1]. *)
Definition AddsInv (k : nat) (s : State) : Prop :=
  historyIndex s = lengthZ (history s) /\
  redoStack s = [] /\
  List.length (elements s) = k /\
  map (@List.length CanvasElement) (history s) = lastn 50 (O :: seq 0 k).

(** [handleMove] for each of the pointer positions [ms] in turn. *)
Definition moves (env : Env) (ms : list PointerEvent) (s : State) : State :=
  fold_left (fun st m => handleMove env m st) ms s.

(** The number of points of the path in progress. *)
Definition pathLength (s : State) : option nat :=
  match currentElement s with
  | Some cur => option_map (@List.length Point) (points cur)
  | None => None
  end.

(** The shape that [handleStart] puts in progress: both corners at the
    pointer. *)
Definition clickedShape (env : Env) (ty : ElementType) (p : Point) : CanvasElement :=
  {| id := now env; type := ty; x := ptX p; y := ptY p;
     endX := Some (ptX p); endY := Some (ptY p);
     points := None; text := None;
     color := brushColor env; size := brushSize env;
     fontFamily := None; fontSize := None |}.

(** ** Further geometry *)

(** The centre and the radius that both [renderElement] and the hit test
    compute for a circle element: the circle through the larger
    semi-axis of the dragged box. *)
Definition circleGeometry (element : CanvasElement) : option (Q * Q * Q) :=
  match type element, endX element, endY element with
  | Circle, Some ex, Some ey =>
      let centerX := (x element + ex) / 2 in
      let centerY := (y element + ey) / 2 in
      let radiusX := Qabs (ex - x element) / 2 in
      let radiusY := Qabs (ey - y element) / 2 in
      let radius := Qmax radiusX radiusY in
      Some (centerX, centerY, radius)
  | _, _, _ => None
  end.

(** The point of the segment that [pointToLineDistance] measures to. *)
Definition closestOnSegment (px py x1 y1 x2 y2 : Q) : Point :=
  let A := px - x1 in
  let B := py - y1 in
  let C := x2 - x1 in
  let D := y2 - y1 in
  let dot := A * C + B * D in
  let lenSq := C * C + D * D in
  let param := if negb (Qeq_bool lenSq 0) then dot / lenSq else - (1) in
  let xx := if Qltb param 0 then x1 else if Qgtb param 1 then x2 else x1 + param * C in
  let yy := if Qltb param 0 then y1 else if Qgtb param 1 then y2 else y1 + param * D in
  mkPoint xx yy.

(** Squared distance between two points. *)
Definition distSq (px py qx qy : Q) : Q :=
  (px - qx) * (px - qx) + (py - qy) * (py - qy).


(** ** The view *)

(** The test of [handleStart] that starts a pan: the pan tool, the middle
    button, or a click with Shift. *)
Definition startsPan (env : Env) (e : PointerEvent) : bool :=
  let isMiddleClick := match e with MouseEvent b _ _ _ => (b =? 1)%Z | _ => false end in
  let isSpaceClick := match e with MouseEvent _ sh _ _ => sh | _ => false end in
  (Tool_eqb (tool env) ToolPan || isMiddleClick || isSpaceClick)%bool.

(** A press that [handleStart] does not ignore: a touch or the main
    button. *)
Definition mainButton (e : PointerEvent) : bool :=
  match e with MouseEvent b _ _ _ => (b =? 0)%Z | TouchEvent _ _ => true end.

Definition resetView (s : State) : State :=
  set_transform {| scale := 1; offset := mkPoint 0 0 |} s.

(** The scale stays within the zoom limits. *)
Definition scaleInRange (s : State) : Prop :=
  (1 # 10) <= scale (transform s) /\ scale (transform s) <= 10.

(** The world point under a canvas point in a given state. *)
Definition worldAt (p : Point) (s : State) : Point :=
  screenToWorld (ptX p) (ptY p) (scale (transform s)) (offset (transform s)).


(** ** More on the history *)

(** The index lies within the history. *)
Definition indexInBounds (s : State) : Prop :=
  (0 <= historyIndex s <= lengthZ (history s))%Z.

(** The commits that call [saveToHistory]. *)
Definition takesSnapshot (k : CommitKind) : bool :=
  match k with AddCommit | DragCommit | DeleteCommit => true | _ => false end.

(** No undo is pending and the history is within its capacity. *)
Definition atEndOfHistory (s : State) : Prop :=
  historyIndex s = lengthZ (history s) /\
  (1 <= List.length (history s) <= 50)%nat.

(** The documents that the commits along a trace hand to [saveToHistory],
    in the order of the commits: each is the document as it stands when
    the commit is carried out. *)
Fixpoint snapshotsTaken (sqrt : Q -> Q) (tr : list (Env * Event)) (s : State)
  : list Document :=
  match tr with
  | [] => []
  | (env, ev) :: rest =>
      (if takesSnapshot (commitKind env ev s) then [elements s] else [])
      ++ snapshotsTaken sqrt rest (step sqrt env ev s)
  end.


(** ** More on the document *)

(** A pointer move that drags the selected element. *)
Definition isDragMove (ev : Event) (s : State) : bool :=
  match ev with
  | PointerMove _ =>
      (negb (isPanning s) && isDragging s
       && match selectedId s with Some _ => true | None => false end)%bool
  | _ => false
  end.

(** The geometry that [handleStart] captures from the element it
    selects. *)
Definition captureGeometry (element : CanvasElement) : DragStart :=
  {| dsX := x element; dsY := y element;
     dsEndX := endX element; dsEndY := endY element;
     dsPoints := option_map (map clonePoint) (points element) |}.

(** The state while the element [sel] is being dragged: what
    [handleStart] recorded at the press. *)
Definition dragging (sel : string) (grab : Point) (start : DragStart)
           (t : Transform) (s : State) : Prop :=
  isPanning s = false /\ isDragging s = true /\
  selectedElementId s = Some sel /\
  dragStartPos s = grab /\ dragElementStartPos s = start /\ transform s = t.


(** ** The keyboard *)

Record KeyboardEvent := mkKey {
  code : string; key : string;
  keyCtrl : bool;                  (* [e.ctrlKey] *)
  keyMeta : bool;                  (* [e.metaKey] *)
  keyShift : bool                  (* [e.shiftKey] *)
}.

Definition isZ (e : KeyboardEvent) : bool :=
  (String.eqb (code e) "KeyZ" || String.eqb (key e) "z" || String.eqb (key e) "Z")%bool.

Definition isY (e : KeyboardEvent) : bool :=
  (String.eqb (code e) "KeyY" || String.eqb (key e) "y" || String.eqb (key e) "Y")%bool.

(** The five tests of [handleKeyDown] run one after the other on the same
    event; the second component is the [size] state. *)
Definition handleKeyDown (e : KeyboardEvent) (size : Q) (s : State) : State * Q :=
  let s :=
    if ((keyCtrl e || keyMeta e) && negb (keyShift e) && isZ e)%bool
    then handleUndo s else s in
  let s :=
    if ((keyCtrl e || keyMeta e)
        && ((keyShift e && isZ e) || (negb (keyShift e) && isY e)))%bool
    then handleRedo s else s in
  let s :=
    if ((String.eqb (key e) "Delete" || String.eqb (key e) "Backspace")
        && match selectedId s with Some _ => true | None => false end)%bool
    then handleDelete s else s in
  let s :=
    if String.eqb (key e) "Escape" then set_selectedElementId None s else s in
  let size :=
    if (String.eqb (key e) "[" || String.eqb (key e) "]")%bool
    then
      let newSize := size + (if String.eqb (key e) "[" then - (1) else 1) in
      Qmax 1 (Qmin 20 newSize)
    else size in
  (s, size).

(** ** The grid and the selection box *)

Definition Math_floor (q : Q) : Q := inject_Z (Qfloor q).
Definition Math_ceil (q : Q) : Q := inject_Z (Qceiling q).

Definition gridSpacing : Q := 50.

(** [for (let x = startX; x <= endX; x += gridSpacing)]: the positions of
    the lines drawn, with a bound on the number of iterations. *)
Fixpoint gridLoop (fuel : nat) (x endX : Q) : list Q :=
  match fuel with
  | O => []
  | S fuel => if Qleb x endX then x :: gridLoop fuel (x + gridSpacing) endX else []
  end.

(** The lines that [redrawStatic] draws for the visible world interval
    from [worldLo] to [worldHi].  The bound on the iterations is the
    number of multiples of the spacing between the two ends. *)
Definition gridLines (worldLo worldHi : Q) : list Q :=
  let start := Math_floor (worldLo / gridSpacing) * gridSpacing in
  let stop := Math_ceil (worldHi / gridSpacing) * gridSpacing in
  gridLoop (Z.to_nat (Qceiling (worldHi / gridSpacing)
                      - Qfloor (worldLo / gridSpacing) + 1))
           start stop.

(** The vertical lines of the grid on a canvas [width] device pixels
    wide. *)
Definition gridVertical (width : Q) (env : Env) (t : Transform) : list Q :=
  let worldLeft := - ptX (offset t) / scale t in
  let worldRight := (width / dpr env - ptX (offset t)) / scale t in
  gridLines worldLeft worldRight.

(** The horizontal lines of the grid on a canvas [height] device pixels
    high. *)
Definition gridHorizontal (height : Q) (env : Env) (t : Transform) : list Q :=
  let worldTop := - ptY (offset t) / scale t in
  let worldBottom := (height / dpr env - ptY (offset t)) / scale t in
  gridLines worldTop worldBottom.

(** The dashed rectangle that [redrawActive] strokes around the selected
    element: corner, width and height. *)
Definition selectionBox (scale : Q) (element : CanvasElement) : Q * Q * Q * Q :=
  let bounds := getElementBounds element in
  (minX bounds - 5 / scale,
   minY bounds - 5 / scale,
   maxX bounds - minX bounds + 10 / scale,
   maxY bounds - minY bounds + 10 / scale).

(** * Properties *)

(** ** Deep clones *)

Lemma clonePoints_id (ps : list Point) : map clonePoint ps = ps.
Proof.
  induction ps as [|[a b] ps IH]; simpl; [reflexivity|].
  now rewrite IH.
Qed.

Lemma cloneElement_id (e : CanvasElement) : cloneElement e = e.
Proof.
  destruct e as [i t ex ey eex eey [pts|] tx c sz ff fs];
    unfold cloneElement; simpl; [|reflexivity].
  now rewrite clonePoints_id.
Qed.

Lemma deepClone_id (d : Document) : deepClone d = d.
Proof.
  unfold deepClone. induction d as [|e d IH]; simpl; [reflexivity|].
  now rewrite cloneElement_id, IH.
Qed.

(** ** Coordinate transforms *)

(** C6: for a transform with positive scale, mapping a world point to the
    screen and back gives the point again, exactly over the rationals. *)
Theorem screenToWorld_worldToScreen (t : Transform) (p : Point) :
  0 < scale t ->
  let q := worldToScreen (ptX p) (ptY p) (scale t) (offset t) in
  Point_equiv (screenToWorld (ptX q) (ptY q) (scale t) (offset t)) p.
Proof.
  intros Hs q. unfold Point_equiv; simpl.
  assert (Hn : ~ scale t == 0) by (intro H; rewrite H in Hs; discriminate).
  split; field; exact Hn.
Qed.

Lemma screenToWorld_worldToScreen_witness :
  0 < 2 /\
  Point_equiv
    (screenToWorld (ptX (worldToScreen 3 (-4) 2 (mkPoint 10 20)))
                   (ptY (worldToScreen 3 (-4) 2 (mkPoint 10 20)))
                   2 (mkPoint 10 20))
    (mkPoint 3 (-4)).
Proof.
  split; [reflexivity|].
  apply (screenToWorld_worldToScreen (mkTransform 2 (mkPoint 10 20)) (mkPoint 3 (-4))).
  reflexivity.
Defined.

Lemma zoom_scale_bounds (z : Q) :
  (1 # 10) <= Qmin (Qmax (1 # 10) z) 10 /\ Qmin (Qmax (1 # 10) z) 10 <= 10.
Proof.
  split.
  - apply Q.min_glb; [apply Q.le_max_l | discriminate].
  - apply Q.le_min_r.
Qed.

(** C5: a zoom (wheel with Ctrl) keeps the world point under the pointer
    fixed and leaves the scale within [0.1, 10]. *)
Theorem zoom_anchored (env : Env) (rect : Rect) (e : WheelEvent) (s : State) :
  canvas env = Some rect ->
  ctrlKey e = true ->
  0 < scale (transform s) ->
  let p := wheelCanvasPos env rect e in
  let t := transform s in
  let t' := transform (handleWheel env e s) in
  Point_equiv (screenToWorld (ptX p) (ptY p) (scale t') (offset t'))
              (screenToWorld (ptX p) (ptY p) (scale t) (offset t))
  /\ (1 # 10) <= scale t' /\ scale t' <= 10.
Proof.
  intros Hc Hk Hs p t t'.
  subst t'. unfold handleWheel. rewrite Hc, Hk. simpl.
  set (ns := Qmin (Qmax (1 # 10) (scale (transform s) + - deltaY e * (1 # 1000))) 10).
  destruct (zoom_scale_bounds (scale (transform s) + - deltaY e * (1 # 1000)))
    as [Hlo Hhi]. fold ns in Hlo, Hhi.
  assert (Hns : ~ ns == 0).
  { intro H. rewrite H in Hlo. apply Hlo. reflexivity. }
  assert (Hn : ~ scale (transform s) == 0).
  { intro H. rewrite H in Hs. discriminate. }
  split; [|split; assumption].
  unfold Point_equiv; simpl. fold p. subst t.
  split; field; split; assumption.
Qed.

Lemma zoom_anchored_witness :
  let env := mkEnv ToolPen "#000000" 3 "1" (Some (mkRect 0 0)) 1 in
  let e := mkWheel true 0 (-1000) 100 100 in
  let s := initialState None in
  let t' := transform (handleWheel env e s) in
  scale t' == 2 /\
  Point_equiv (screenToWorld 100 100 (scale t') (offset t'))
              (screenToWorld 100 100 1 (mkPoint 0 0)).
Proof.
  intros env e s t'. split; [reflexivity|].
  destruct (zoom_anchored env (mkRect 0 0) e s) as [H _];
    [reflexivity | reflexivity | reflexivity |].
  split; [exact (proj1 H) | exact (proj2 H)].
Defined.

(** ** Hit testing *)

Lemma firstn_snoc_nth {A} (l : list A) (i : nat) (a : A) :
  nth_error l i = Some a -> firstn (S i) l = firstn i l ++ [a].
Proof.
  revert i. induction l as [|b l IH]; intros [|i] H; simpl in *; try discriminate.
  - now inversion H.
  - f_equal. now apply IH.
Qed.

Lemma scanDown_find (sqrt : Q -> Q) (wx wy t : Q) (els : list CanvasElement) (n : nat) :
  (n <= List.length els)%nat ->
  scanDown sqrt wx wy els t n = find (hitsElement sqrt wx wy t) (rev (firstn n els)).
Proof.
  induction n as [|i IH]; intros Hn; [reflexivity|].
  simpl scanDown.
  destruct (nth_error els i) as [el|] eqn:Hel.
  - rewrite (firstn_snoc_nth _ _ _ Hel), rev_app_distr. simpl.
    destruct (hitsElement sqrt wx wy t el); [reflexivity|].
    apply IH. lia.
  - apply nth_error_None in Hel. lia.
Qed.

Lemma getElementAtPosition_find (sqrt : Q -> Q) (wx wy t : Q) (els : list CanvasElement) :
  getElementAtPosition sqrt wx wy els t = find (hitsElement sqrt wx wy t) (rev els).
Proof.
  unfold getElementAtPosition.
  rewrite scanDown_find by lia. now rewrite firstn_all.
Qed.

Lemma find_none_of {A} (p : A -> bool) (l : list A) :
  forallb (fun a => negb (p a)) l = true -> find p l = None.
Proof.
  induction l as [|a l IH]; simpl; [reflexivity|].
  destruct (p a); simpl; [discriminate | exact IH].
Qed.

Lemma find_app_none {A} (p : A -> bool) (l r : list A) :
  find p l = None -> find p (l ++ r) = find p r.
Proof.
  induction l as [|a l IH]; simpl; [reflexivity|].
  destruct (p a); [discriminate | exact IH].
Qed.

Lemma forallb_rev {A} (p : A -> bool) (l : list A) :
  forallb p (rev l) = forallb p l.
Proof.
  induction l as [|a l IH]; simpl; [reflexivity|].
  rewrite forallb_app, IH. simpl. rewrite andb_true_r. apply andb_comm.
Qed.

(** X26: the scan runs from the last element to the first and returns
    the first element that passes both the coarse bounding-box check and
    the test of its type.  Of two such elements the later one wins when
    nothing above it is hit, and the result is [None] when no element is
    hit. *)
Theorem hitTest_reverse_z_order (sqrt : Q -> Q) (wx wy t : Q) (els : list CanvasElement) :
  getElementAtPosition sqrt wx wy els t = find (hitsElement sqrt wx wy t) (rev els)
  /\ (forall pre a mid b post,
         els = pre ++ a :: mid ++ b :: post ->
         hitsElement sqrt wx wy t a = true ->
         hitsElement sqrt wx wy t b = true ->
         forallb (fun e => negb (hitsElement sqrt wx wy t e)) post = true ->
         getElementAtPosition sqrt wx wy els t = Some b)
  /\ (forallb (fun e => negb (hitsElement sqrt wx wy t e)) els = true ->
      getElementAtPosition sqrt wx wy els t = None).
Proof.
  split; [apply getElementAtPosition_find|]. split.
  - intros pre a mid b post -> _ Hb Hpost.
    rewrite getElementAtPosition_find.
    replace (pre ++ a :: mid ++ b :: post) with ((pre ++ a :: mid) ++ b :: post)
      by (rewrite <- app_assoc; reflexivity).
    rewrite rev_app_distr. simpl rev. rewrite <- app_assoc.
    rewrite find_app_none.
    + simpl. now rewrite Hb.
    + apply find_none_of. now rewrite forallb_rev.
  - intros Hnone. rewrite getElementAtPosition_find.
    apply find_none_of. now rewrite forallb_rev.
Qed.

Lemma hitTest_reverse_z_order_witness :
  getElementAtPosition Qsqrt 0 0 [sampleRect; sampleStroke] 5 = Some sampleStroke
  /\ getElementAtPosition Qsqrt 100 100 [sampleRect; sampleStroke] 5 = None.
Proof.
  split.
  - apply (proj1 (proj2 (hitTest_reverse_z_order
                           Qsqrt 0 0 5 [sampleRect; sampleStroke]))
             [] sampleRect [] sampleStroke []); reflexivity.
  - apply (proj2 (proj2 (hitTest_reverse_z_order
                           Qsqrt 100 100 5 [sampleRect; sampleStroke]))).
    reflexivity.
Defined.

(** C7 fails on the code for circle elements.  A circle is drawn, and
    tested, with the larger semi-axis of its box as radius: for the box 20
    wide and 4 high around the origin that is the circle of radius 10, and
    (0, 10) lies on it.  The test of the circle type matches there, even
    with threshold 0, and so does the test of the rectangle below.  The
    bounding-box check, which the source introduces as an optimisation,
    rejects the circle all the same: the scan returns the rectangle below
    it, and nothing at all when the circle is alone. *)
Theorem hitTest_misses_point_on_circle :
  (exists cx cy r,
      circleGeometry sampleEllipse = Some (cx, cy, r)
      /\ cx == 0 /\ cy == 0 /\ r == 10)
  /\ detailedHit Qsqrt 0 10 sampleEllipse 0 = true
  /\ detailedHit Qsqrt 0 10 sampleEllipse 5 = true
  /\ detailedHit Qsqrt 0 10 sampleRect 5 = true
  /\ getElementAtPosition Qsqrt 0 10 [sampleRect; sampleEllipse] 5 = Some sampleRect
  /\ getElementAtPosition Qsqrt 0 10 [sampleEllipse] 5 = None.
Proof.
  split.
  - exists (0 # 2), (0 # 2), (20 # 2). repeat split; reflexivity.
  - repeat split; reflexivity.
Qed.

(** ** History manager *)

Lemma lengthZ_app {A} (l r : list A) : lengthZ (l ++ r) = (lengthZ l + lengthZ r)%Z.
Proof. unfold lengthZ. rewrite length_app. lia. Qed.

Lemma lengthZ_tl {A} (l : list A) :
  l <> [] -> lengthZ (tl l) = (lengthZ l - 1)%Z.
Proof. destruct l; [congruence|]. intros _. unfold lengthZ; cbn [tl List.length]. lia. Qed.

Lemma lengthZ_nonneg {A} (l : list A) : (0 <= lengthZ l)%Z.
Proof. unfold lengthZ. lia. Qed.

(** With the index at the end of the history (no undo pending),
    [saveToHistory] appends the current document, drops the oldest entry
    beyond 50 and empties the redo stack. *)
Lemma saveToHistory_spec (s : State) :
  historyIndex s = lengthZ (history s) ->
  let h := history s ++ [elements s] in
  let h' := if (lengthZ h >? MAX_HISTORY_STEPS)%Z then tl h else h in
  history (saveToHistory s) = h' /\
  historyIndex (saveToHistory s) = lengthZ h' /\
  redoStack (saveToHistory s) = [] /\
  elements (saveToHistory s) = elements s.
Proof.
  intros Hi h h'. unfold saveToHistory.
  rewrite deepClone_id, Hi, Z.ltb_irrefl.
  cbn -[Z.gtb MAX_HISTORY_STEPS lengthZ].
  fold h.
  destruct (lengthZ h >? MAX_HISTORY_STEPS)%Z eqn:E; subst h'; rewrite ?E;
    cbn -[Z.gtb MAX_HISTORY_STEPS lengthZ]; repeat split.
  symmetry. apply lengthZ_tl. subst h. now destruct (history s).
Qed.

(** [saveToHistory] touches the history fields and the two counters only. *)
Lemma saveToHistory_frame (s : State) :
  elements (saveToHistory s) = elements s /\
  currentElement (saveToHistory s) = currentElement s /\
  selectedElementId (saveToHistory s) = selectedElementId s /\
  textInputState (saveToHistory s) = textInputState s /\
  isDrawing (saveToHistory s) = isDrawing s /\
  isPanning (saveToHistory s) = isPanning s /\
  isDragging (saveToHistory s) = isDragging s /\
  transform (saveToHistory s) = transform s /\
  saveCalls (saveToHistory s) = saveCalls s /\
  redoStack (saveToHistory s) = [].
Proof.
  unfold saveToHistory.
  destruct (historyIndex s <? lengthZ (history s))%Z;
    cbn -[Z.gtb MAX_HISTORY_STEPS lengthZ];
    match goal with |- context [(?a >? ?b)%Z] => destruct (a >? b)%Z end;
    cbn -[Z.gtb MAX_HISTORY_STEPS lengthZ]; repeat split.
Qed.

Lemma lookup_nonneg {A} (l : list A) (i : Z) :
  (0 <= i)%Z -> lookup l i = nth_error l (Z.to_nat i).
Proof. intros H. unfold lookup. destruct (i <? 0)%Z eqn:E; [lia | reflexivity]. Qed.

Lemma lookup_neg {A} (l : list A) (i : Z) : (i < 0)%Z -> lookup l i = None.
Proof. intros H. unfold lookup. destruct (i <? 0)%Z eqn:E; [reflexivity | lia]. Qed.

(** One undo, case by case on the index. *)
Lemma handleUndo_at_zero (s : State) :
  (historyIndex s <= 0)%Z -> handleUndo s = s.
Proof.
  intros H. unfold handleUndo.
  destruct (historyIndex s >? 0)%Z eqn:E; [lia | reflexivity].
Qed.

Lemma handleUndo_fields (s : State) :
  (0 < historyIndex s)%Z ->
  history (handleUndo s) = history s /\
  historyIndex (handleUndo s) = (historyIndex s - 1)%Z /\
  redoStack (handleUndo s) = redoStack s ++ [elements s] /\
  elements (handleUndo s) =
    match lookup (history s) (historyIndex s - 2) with
    | Some d => d
    | None => elements s
    end.
Proof.
  intros H. unfold handleUndo.
  destruct (historyIndex s >? 0)%Z eqn:E; [|lia].
  rewrite deepClone_id. cbn -[lookup Z.sub].
  replace (historyIndex s - 1 - 1)%Z with (historyIndex s - 2)%Z by lia.
  destruct (lookup (history s) (historyIndex s - 2)) as [d|];
    cbn; rewrite ?deepClone_id; repeat split.
Qed.

Lemma pop_snoc {A} (l : list A) (a : A) : pop (l ++ [a]) = Some (a, l).
Proof. unfold pop. rewrite rev_app_distr. simpl. now rewrite rev_involutive. Qed.

Lemma handleRedo_empty (s : State) : redoStack s = [] -> handleRedo s = s.
Proof. intros H. unfold handleRedo. now rewrite H. Qed.

Lemma handleRedo_snoc (s : State) (r : list Document) (d : Document) :
  redoStack s = r ++ [d] ->
  redoStack (handleRedo s) = r /\
  elements (handleRedo s) = d /\
  history (handleRedo s) = history s ++ [d] /\
  historyIndex (handleRedo s) = lengthZ (history s ++ [d]).
Proof.
  intros H. unfold handleRedo. rewrite H, pop_snoc, deepClone_id.
  cbn -[lengthZ Z.gtb]. repeat split.
Qed.

Lemma times_S_r {A} (n : nat) (f : A -> A) (s : A) :
  times (S n) f s = f (times n f s).
Proof. revert s. induction n as [|n IH]; intros s; [reflexivity|]. simpl. now rewrite <- IH. Qed.

Lemma times_fixed {A} (n : nat) (f : A -> A) (s : A) : f s = s -> times n f s = s.
Proof. intros H. induction n as [|n IH]; simpl; [reflexivity|]. now rewrite H. Qed.

(** Enough undos bring the document to the oldest snapshot that is still
    below the index. *)
Lemma undo_reaches_base (n : nat) : forall (s : State) (d0 : Document),
  (historyIndex s <= lengthZ (history s))%Z ->
  (historyIndex s - 1 <= Z.of_nat n)%Z ->
  ((2 <= historyIndex s)%Z -> nth_error (history s) 0 = Some d0) ->
  ((historyIndex s <= 1)%Z -> elements s = d0) ->
  elements (times n handleUndo s) = d0.
Proof.
  induction n as [|n IH]; intros s d0 Hle Hn Hbase Hlow.
  - simpl. apply Hlow. lia.
  - simpl.
    destruct (Z_le_gt_dec (historyIndex s) 0) as [Hz|Hp].
    + rewrite handleUndo_at_zero by exact Hz.
      apply IH; auto; lia.
    + destruct (handleUndo_fields s) as (Hh & Hi & _ & He); [lia|].
      apply IH.
      * rewrite Hh, Hi. lia.
      * rewrite Hi. lia.
      * rewrite Hh, Hi. intros H2. apply Hbase. lia.
      * rewrite Hi. intros H1. rewrite He.
        destruct (Z.eq_dec (historyIndex s) 1) as [E1|N1].
        -- rewrite lookup_neg by lia. apply Hlow. lia.
        -- assert (E2 : historyIndex s = 2%Z) by lia.
           rewrite E2. change (2 - 2)%Z with 0%Z. rewrite lookup_nonneg by lia.
           change (Z.to_nat 0) with O. rewrite Hbase by lia. reflexivity.
Qed.

Lemma undo_redo_stack (n : nat) : forall (s : State),
  exists r, redoStack (times n handleUndo s) = redoStack s ++ r
            /\ (List.length r <= n)%nat.
Proof.
  induction n as [|n IH]; intros s.
  - exists []. simpl. rewrite app_nil_r. split; [reflexivity | lia].
  - simpl. destruct (IH (handleUndo s)) as (r & Hr & Hl). rewrite Hr.
    destruct (Z_le_gt_dec (historyIndex s) 0) as [Hz|Hp].
    + rewrite handleUndo_at_zero by exact Hz. exists r. split; [reflexivity | lia].
    + destruct (handleUndo_fields s) as (_ & _ & Hs & _); [lia|].
      rewrite Hs, <- app_assoc. exists ([elements s] ++ r). simpl. split; [reflexivity | lia].
Qed.

(** Enough redos bring back the document at the bottom of the redo stack. *)
Lemma redo_reaches_bottom (n : nat) : forall (s : State) (d : Document) (r : list Document),
  redoStack s = d :: r ->
  (List.length (d :: r) <= n)%nat ->
  elements (times n handleRedo s) = d.
Proof.
  induction n as [|n IH]; intros s d r Hs Hn; [simpl in Hn; lia|].
  simpl.
  destruct (exists_last (l := d :: r)) as (r' & a & Hra); [discriminate|].
  rewrite Hra in Hs.
  destruct (handleRedo_snoc s r' a Hs) as (Hr & He & _).
  destruct r' as [|d' r'']; simpl in Hra; injection Hra as Hd Hr0.
  - rewrite Hd. rewrite times_fixed; [exact He|].
    apply handleRedo_empty. exact Hr.
  - rewrite Hd. apply (IH _ _ r''); [exact Hr|].
    rewrite Hr0 in Hn. simpl in Hn. rewrite length_app in Hn. simpl in Hn |- *. lia.
Qed.

(** ** What each handler does to the document and the history *)

(** Case analysis on an innermost scrutinee of the goal. *)
Ltac break_step :=
  match goal with
  | |- context [match ?c with _ => _ end] =>
      tryif (match c with context [match _ with _ => _ end] => idtac end)
      then fail
      else destruct c eqn:?
  end.

Ltac break_goal := repeat break_step.

Lemma saveToHistory_ext (s1 s2 : State) :
  elements s1 = elements s2 ->
  history s1 = history s2 ->
  historyIndex s1 = historyIndex s2 ->
  historyState (saveToHistory s1) = historyState (saveToHistory s2).
Proof.
  intros He Hh Hi. unfold historyState, saveToHistory.
  rewrite He, Hh, Hi.
  destruct (historyIndex s2 <? lengthZ (history s2))%Z;
    cbn -[Z.gtb MAX_HISTORY_STEPS lengthZ]; rewrite ?Hh;
    match goal with |- context [(?a >? ?b)%Z] => destruct (a >? b)%Z end;
    cbn -[Z.gtb MAX_HISTORY_STEPS lengthZ]; reflexivity.
Qed.

Lemma updateFirst_length (p : CanvasElement -> bool) (f : CanvasElement -> CanvasElement)
      (l : Document) :
  List.length (updateFirst p f l) = List.length l.
Proof.
  induction l as [|e l IH]; simpl; [reflexivity|].
  destruct (p e); simpl; [reflexivity | now rewrite IH].
Qed.

Lemma handleStart_frame (sqrt : Q -> Q) (env : Env) (e : PointerEvent) (s : State) :
  elements (handleStart sqrt env e s) = elements s /\
  historyState (handleStart sqrt env e s) = historyState s /\
  saveCalls (handleStart sqrt env e s) = saveCalls s.
Proof.
  unfold handleStart, historyState.
  destruct (tool env); cbn [Tool_eqb orb isPathTool shapeType];
    break_goal; repeat split.
Qed.

Lemma handleMove_frame (env : Env) (e : PointerEvent) (s : State) :
  List.length (elements (handleMove env e s)) = List.length (elements s) /\
  historyState (handleMove env e s) = historyState s /\
  saveCalls (handleMove env e s) = saveCalls s.
Proof.
  unfold handleMove, historyState.
  destruct (isPanning s); [repeat split|].
  destruct (if isDragging s then selectedId s else None) as [sel|].
  { cbn [elements set_elements history historyIndex redoStack saveCalls].
    rewrite updateFirst_length. repeat split. }
  destruct (if isDrawing s then currentElement s else None) as [cur|]; [|repeat split].
  destruct (ElementType_eqb (type cur) Pencil), (points cur), (endX cur), (endY cur);
    repeat split.
Qed.

(** Projections of field updates, and nothing else. *)
Ltac proj_simpl :=
  unfold historyState, debouncedSave;
  cbn [elements currentElement history historyIndex redoStack undoCount redoCount
       selectedElementId textInputState isDrawing isPanning isDragging
       dragStartPos dragElementStartPos lastMousePos transform saveCalls
       set_elements set_currentElement set_history set_historyIndex set_redoStack
       set_undoCount set_redoCount set_selectedElementId set_textInputState
       set_isDrawing set_isPanning set_isDragging set_dragStartPos
       set_dragElementStartPos set_lastMousePos set_transform set_saveCalls
       debouncedSave historyState].

Lemma saveToHistory_set_isDragging (b : bool) (s : State) :
  saveToHistory (set_isDragging b s) = set_isDragging b (saveToHistory s).
Proof.
  unfold saveToHistory. repeat (proj_simpl; break_step); reflexivity.
Qed.

Lemma saveToHistory_set_isDrawing (b : bool) (s : State) :
  saveToHistory (set_isDrawing b s) = set_isDrawing b (saveToHistory s).
Proof.
  unfold saveToHistory. repeat (proj_simpl; break_step); reflexivity.
Qed.

Lemma saveToHistory_elements (s : State) : elements (saveToHistory s) = elements s.
Proof. exact (proj1 (saveToHistory_frame s)). Qed.

(** Field updates that leave the history alone. *)
Lemma historyState_debouncedSave (s : State) :
  historyState (debouncedSave s) = historyState s.
Proof. reflexivity. Qed.

Lemma historyState_set_elements (v : Document) (s : State) :
  historyState (set_elements v s) = historyState s.
Proof. reflexivity. Qed.

Lemma historyState_set_currentElement (v : option CanvasElement) (s : State) :
  historyState (set_currentElement v s) = historyState s.
Proof. reflexivity. Qed.

Lemma historyState_set_isDrawing (v : bool) (s : State) :
  historyState (set_isDrawing v s) = historyState s.
Proof. reflexivity. Qed.

Lemma historyState_set_isDragging (v : bool) (s : State) :
  historyState (set_isDragging v s) = historyState s.
Proof. reflexivity. Qed.

Lemma historyState_set_selectedElementId (v : option string) (s : State) :
  historyState (set_selectedElementId v s) = historyState s.
Proof. reflexivity. Qed.

Lemma historyState_set_textInputState (v : option TextInput) (s : State) :
  historyState (set_textInputState v s) = historyState s.
Proof. reflexivity. Qed.

Lemma elements_debouncedSave (s : State) : elements (debouncedSave s) = elements s.
Proof. reflexivity. Qed.

Lemma elements_set_elements (v : Document) (s : State) : elements (set_elements v s) = v.
Proof. reflexivity. Qed.

Lemma elements_set_currentElement (v : option CanvasElement) (s : State) :
  elements (set_currentElement v s) = elements s.
Proof. reflexivity. Qed.

Lemma elements_set_isDrawing (v : bool) (s : State) :
  elements (set_isDrawing v s) = elements s.
Proof. reflexivity. Qed.

Lemma elements_set_isDragging (v : bool) (s : State) :
  elements (set_isDragging v s) = elements s.
Proof. reflexivity. Qed.

Lemma elements_set_selectedElementId (v : option string) (s : State) :
  elements (set_selectedElementId v s) = elements s.
Proof. reflexivity. Qed.

Lemma elements_set_textInputState (v : option TextInput) (s : State) :
  elements (set_textInputState v s) = elements s.
Proof. reflexivity. Qed.

Create Rewrite HintDb frame.
#[local] Hint Rewrite
  historyState_debouncedSave historyState_set_elements
  historyState_set_currentElement historyState_set_isDrawing
  historyState_set_isDragging historyState_set_selectedElementId
  historyState_set_textInputState
  elements_debouncedSave elements_set_elements elements_set_currentElement
  elements_set_isDrawing elements_set_isDragging elements_set_selectedElementId
  elements_set_textInputState saveToHistory_elements
  saveToHistory_set_isDragging saveToHistory_set_isDrawing : frame.

Lemma step_effect (sqrt : Q -> Q) (env : Env) (ev : Event) (s : State) :
  isEdit ev = true ->
  stepEffect (commitKind env ev s) s (step sqrt env ev s).
Proof.
  intros Hev.
  destruct ev as [e|e| |txt| | | | |e| |]; try discriminate; cbn [step commitKind].
  - (* PointerDown *)
    destruct (handleStart_frame sqrt env e s) as (He & Hh & _).
    split; [exact Hh | now rewrite He].
  - (* PointerMove *)
    destruct (handleMove_frame env e s) as (He & Hh & _).
    split; assumption.
  - (* PointerUp *)
    unfold handleEnd.
    destruct (isPanning s); [split; reflexivity|].
    destruct (isDragging s) eqn:Hd.
    + unfold stepEffect. autorewrite with frame. split; reflexivity.
    + destruct (if isDrawing s then currentElement s else None) as [cur|];
        [|split; reflexivity].
      destruct (isValid cur); unfold stepEffect; autorewrite with frame;
        [|split; reflexivity].
      split; [reflexivity | now exists cur].
  - (* TextCommit *)
    unfold handleTextCommit.
    destruct (textInputState s) as [ti|]; [|split; reflexivity].
    destruct (canvas env) as [rect|].
    + destruct (truthy (trim txt)); cbn [negb]; [|split; reflexivity].
      unfold stepEffect. autorewrite with frame. split; [reflexivity|].
      eexists. reflexivity.
    + destruct (truthy (trim txt)); split; reflexivity.
  - (* TextCancel *) split; reflexivity.
  - (* DeleteKey *)
    unfold handleDelete.
    destruct (selectedId s) as [sel|]; [|split; reflexivity].
    unfold stepEffect. autorewrite with frame. split; [reflexivity|].
    now exists sel.
  - (* EscapeKey *) split; reflexivity.
  - (* ClearButton *) split; reflexivity.
  - (* Wheel *)
    unfold handleWheel. destruct (canvas env); [|split; reflexivity].
    destruct (ctrlKey e); split; reflexivity.
Qed.

(** ** Runs from a fresh board *)

Lemma historyState_inv (s s' : State) :
  historyState s' = historyState s ->
  history s' = history s /\ historyIndex s' = historyIndex s /\
  redoStack s' = redoStack s.
Proof. unfold historyState. intros H. now inversion H. Qed.

Lemma saveToHistory_historyState (s s' : State) :
  historyIndex s = lengthZ (history s) ->
  historyState s' = historyState (saveToHistory s) ->
  let h := history s ++ [elements s] in
  let h' := if (lengthZ h >? MAX_HISTORY_STEPS)%Z then tl h else h in
  history s' = h' /\ historyIndex s' = lengthZ h' /\ redoStack s' = [].
Proof.
  intros Hi Hs h h'.
  destruct (historyState_inv _ _ Hs) as (H1 & H2 & H3).
  destruct (saveToHistory_spec s Hi) as (S1 & S2 & S3 & _).
  rewrite H1, H2, H3. repeat split; assumption.
Qed.

Lemma FreshInv_init : FreshInv 0 (initialState None).
Proof.
  unfold FreshInv. simpl. repeat split; auto. intros _ H. lia.
Qed.

Lemma nth_error_tl {A} (l : list A) (i : nat) :
  nth_error (tl l) i = nth_error l (S i).
Proof. destruct l; [now destruct i | reflexivity]. Qed.

Lemma FreshInv_snapshot (k : nat) (s s' : State) :
  FreshInv k s -> (k + 1 <= 50)%nat ->
  historyState s' = historyState (saveToHistory s) ->
  FreshInv (k + 1) s'.
Proof.
  intros (Hi & Hl & H0 & Hr & Hempty & H1) Hk Hs.
  destruct (saveToHistory_historyState s s' Hi Hs) as (E1 & E2 & E3).
  unfold FreshInv. split; [rewrite E1; exact E2|]. rewrite E3. clear E2.
  assert (Hlen : lengthZ (history s ++ [elements s])
                 = Z.of_nat (List.length (history s) + 1)).
  { unfold lengthZ. now rewrite length_app. }
  rewrite Hlen in E1. unfold MAX_HISTORY_STEPS in E1.
  destruct (Z.gtb_spec (Z.of_nat (List.length (history s) + 1)) 50) as [Hfull|Hroom];
    rewrite E1.
  - (* the history was full: the oldest entry goes *)
    assert (Hl50 : List.length (history s) = 50%nat) by lia.
    split; [|split; [|split; [reflexivity|split]]].
    + destruct (history s) as [|d h] eqn:Hh; [simpl in Hl50; lia|].
      cbn [app tl]. rewrite length_app. simpl List.length in *. lia.
    + rewrite nth_error_tl, nth_error_app1 by lia. apply H1; lia.
    + destruct (history s) as [|d h] eqn:Hh; [simpl in Hl50; lia|].
      cbn [app tl]. rewrite length_app. simpl List.length in *. lia.
    + lia.
  - split; [|split; [|split; [reflexivity|split]]].
    + rewrite length_app. simpl List.length. lia.
    + rewrite nth_error_app1 by lia. exact H0.
    + rewrite length_app. simpl List.length. lia.
    + intros Hk' _.
      destruct (Nat.eq_dec (List.length (history s)) 1) as [Hone|Hmore].
      * rewrite nth_error_app2 by lia. rewrite Hone. simpl.
        now rewrite (Hempty Hone).
      * rewrite nth_error_app1 by lia. apply H1; lia.
Qed.

Lemma FreshInv_step (sqrt : Q -> Q) (k : nat) (env : Env) (ev : Event) (s : State) :
  FreshInv k s -> isEdit ev = true ->
  let c := if isCommit (commitKind env ev s) then 1%nat else O in
  (k + c <= 50)%nat ->
  FreshInv (k + c) (step sqrt env ev s).
Proof.
  intros Hinv Hev c Hk.
  pose proof (step_effect sqrt env ev s Hev) as He.
  subst c. destruct (commitKind env ev s); cbn [isCommit] in *; cbn [stepEffect] in He.
  - (* no commit *)
    destruct He as (Hh & Hlen).
    destruct (historyState_inv _ _ Hh) as (E1 & E2 & E3).
    destruct Hinv as (Hi & Hl & H0 & Hr & Hempty & H1).
    rewrite Nat.add_0_r. unfold FreshInv. rewrite E1, E2, E3.
    repeat split; try assumption; try lia.
    intros Hone. apply Hempty in Hone. rewrite Hone in Hlen.
    now apply length_zero_iff_nil.
  - destruct He as (Hh & _). now apply (FreshInv_snapshot k s).
  - destruct He as (Hh & _). now apply (FreshInv_snapshot k s).
  - destruct He as (Hh & _). now apply (FreshInv_snapshot k s).
  - (* clear *)
    destruct He as (Hh & Hnil).
    destruct (historyState_inv _ _ Hh) as (E1 & E2 & E3).
    destruct Hinv as (Hi & Hl & H0 & Hr & _ & H1).
    unfold FreshInv. rewrite E1, E2, E3.
    repeat split; try assumption; try lia.
    + intros _. exact Hnil.
    + intros Hk' Hlen. apply H1; lia.
Qed.

Lemma FreshInv_run (sqrt : Q -> Q) (tr : list (Env * Event)) :
  forall (k : nat) (s : State),
    FreshInv k s -> editsOnly tr = true ->
    (k + countCommits sqrt tr s <= 50)%nat ->
    FreshInv (k + countCommits sqrt tr s) (run sqrt tr s).
Proof.
  induction tr as [|[env ev] tr IH]; intros k s Hinv Hed Hk.
  - simpl. now rewrite Nat.add_0_r.
  - simpl in Hed. apply andb_prop in Hed as [Hev Hed].
    cbn [countCommits run] in *.
    rewrite Nat.add_assoc. apply IH; [|exact Hed|lia].
    apply FreshInv_step; [exact Hinv | exact Hev | lia].
Qed.

(** Undo [n] times, then redo [n] times: the document is back. *)
Lemma undo_then_redo (n : nat) (s : State) :
  (0 < historyIndex s)%Z -> redoStack s = [] ->
  elements (times n handleRedo (times n handleUndo s)) = elements s.
Proof.
  intros Hi Hr. destruct n as [|m]; [reflexivity|].
  change (times (S m) handleUndo s) with (times m handleUndo (handleUndo s)).
  destruct (handleUndo_fields s Hi) as (_ & _ & Hs & _).
  destruct (undo_redo_stack m (handleUndo s)) as (r & Hrs & Hlen).
  rewrite Hs, Hr in Hrs. simpl in Hrs.
  apply (redo_reaches_bottom (S m) _ _ r Hrs). simpl. lia.
Qed.

(** ** The sliding window of snapshots *)

Lemma skipn_S_tl {A} (k : nat) : forall l : list A, skipn (S k) l = tl (skipn k l).
Proof.
  induction k as [|k IH]; intros [|a l]; try reflexivity.
  rewrite skipn_cons. rewrite IH. reflexivity.
Qed.

Lemma lastn_snoc {A} (n : nat) (l : list A) (a : A) :
  lastn n (l ++ [a]) =
  if (n <? List.length (lastn n l ++ [a]))%nat
  then tl (lastn n l ++ [a]) else lastn n l ++ [a].
Proof.
  unfold lastn. rewrite !length_app, length_skipn. simpl List.length.
  destruct (Nat.ltb_spec n (List.length l - (List.length l - n) + 1)) as [H|H].
  - replace (List.length l + 1 - n)%nat with (S (List.length l - n)) by lia.
    rewrite skipn_S_tl, skipn_app.
    replace (List.length l - n - List.length l)%nat with O by lia.
    reflexivity.
  - replace (List.length l + 1 - n)%nat with O by lia.
    replace (List.length l - n)%nat with O by lia.
    reflexivity.
Qed.

Lemma map_tl {A B} (f : A -> B) (l : list A) : map f (tl l) = tl (map f l).
Proof. now destruct l. Qed.

Lemma AddsInv_init : AddsInv 0 (initialState None).
Proof. unfold AddsInv. simpl. repeat split; auto. Qed.

Lemma AddsInv_step (sqrt : Q -> Q) (k : nat) (env : Env) (ev : Event) (s : State) :
  AddsInv k s -> isEdit ev = true ->
  isAddOrNone (commitKind env ev s) = true ->
  let c := if isCommit (commitKind env ev s) then 1%nat else O in
  AddsInv (k + c) (step sqrt env ev s).
Proof.
  intros (Hi & Hr & Hlen & Hmap) Hev Hadd c.
  pose proof (step_effect sqrt env ev s Hev) as He.
  subst c. destruct (commitKind env ev s); try discriminate;
    cbn [isCommit]; cbn [stepEffect] in He.
  - destruct He as (Hh & Hl).
    destruct (historyState_inv _ _ Hh) as (H1 & H2 & H3).
    rewrite Nat.add_0_r. unfold AddsInv. rewrite H1, H2, H3, Hl.
    repeat split; assumption.
  - destruct He as (Hh & e & Hel).
    destruct (saveToHistory_historyState s _ Hi Hh) as (H1 & H2 & H3).
    unfold AddsInv. rewrite H1, H2, H3, Hel, length_app. simpl List.length.
    repeat split; try lia.
    replace (k + 1)%nat with (S k) by lia.
    rewrite seq_S. simpl Nat.add.
    change (O :: seq 0 k ++ [k]) with ((O :: seq 0 k) ++ [k]).
    rewrite lastn_snoc, <- Hmap, <- Hlen.
    replace (map (@List.length CanvasElement) (history s) ++ [List.length (elements s)])
      with (map (@List.length CanvasElement) (history s ++ [elements s]))
      by (rewrite map_app; reflexivity).
    rewrite length_map.
    unfold lengthZ, MAX_HISTORY_STEPS.
    unfold Document in *.
    match goal with
    | |- context [(50 <? ?n)%nat] => destruct (Nat.ltb_spec 50 n) as [H|H]
    end.
    + match goal with
      | |- context [(Z.of_nat ?n >? 50)%Z] =>
          replace (Z.of_nat n >? 50)%Z with true
            by (symmetry; rewrite Z.gtb_ltb; apply Z.ltb_lt; lia)
      end.
      apply map_tl.
    + match goal with
      | |- context [(Z.of_nat ?n >? 50)%Z] =>
          replace (Z.of_nat n >? 50)%Z with false
            by (symmetry; rewrite Z.gtb_ltb; apply Z.ltb_ge; lia)
      end.
      reflexivity.
Qed.

Lemma AddsInv_run (sqrt : Q -> Q) (tr : list (Env * Event)) :
  forall (k : nat) (s : State),
    AddsInv k s -> editsOnly tr = true -> onlyAdds sqrt tr s = true ->
    AddsInv (k + countCommits sqrt tr s) (run sqrt tr s).
Proof.
  induction tr as [|[env ev] tr IH]; intros k s Hinv Hed Hadd.
  - simpl. now rewrite Nat.add_0_r.
  - simpl in Hed. apply andb_prop in Hed as [Hev Hed].
    cbn [onlyAdds] in Hadd. apply andb_prop in Hadd as [Ha Hadd].
    cbn [countCommits run].
    rewrite Nat.add_assoc. apply IH; [|exact Hed|exact Hadd].
    now apply AddsInv_step.
Qed.

(** ** Undo and redo *)

(** C2, as the code has it: on a fresh board (empty document, history
    seeded with the empty snapshot), after any run of edit events that
    commits [n <= 50] mutations, [n] undos bring the document back to the
    empty start and [n] redos then restore the final document. *)
Theorem undo_redo_inverse_fresh (sqrt : Q -> Q) (tr : list (Env * Event)) :
  editsOnly tr = true ->
  (countCommits sqrt tr (initialState None) <= 50)%nat ->
  let s := run sqrt tr (initialState None) in
  let n := countCommits sqrt tr (initialState None) in
  elements (times n handleUndo s) = elements (initialState None)
  /\ elements (times n handleRedo (times n handleUndo s)) = elements s.
Proof.
  intros Hed Hn s n.
  pose proof (FreshInv_run sqrt tr 0 (initialState None) FreshInv_init Hed Hn) as Hinv.
  cbn [Nat.add] in Hinv. fold s n in Hinv.
  destruct Hinv as (Hi & Hl & H0 & Hr & Hempty & _).
  assert (Hlz : lengthZ (history s) = Z.of_nat (List.length (history s))) by reflexivity.
  split.
  - apply undo_reaches_base.
    + rewrite Hi. lia.
    + rewrite Hi, Hlz. lia.
    + intros _. exact H0.
    + intros H1. apply Hempty. rewrite Hi, Hlz in H1. lia.
  - apply undo_then_redo; [|exact Hr].
    rewrite Hi, Hlz. lia.
Qed.

Lemma undo_redo_inverse_fresh_witness :
  let tr := strokeTrace ++ strokeTrace in
  let s := run Qsqrt tr (initialState None) in
  countCommits Qsqrt tr (initialState None) = 2%nat
  /\ elements (times 2 handleUndo s) = []
  /\ elements (times 2 handleRedo (times 2 handleUndo s)) = elements s.
Proof.
  intros tr s. split; [reflexivity|].
  apply (undo_redo_inverse_fresh Qsqrt tr); [reflexivity|].
  change (2 <= 50)%nat. lia.
Defined.

(** C2 as stated fails.  Beyond the bound of the history the start is
    out of reach: 51 undos after 51 strokes stop at the document of the
    first stroke.  And it fails from a board that is not fresh: with one
    stroke on the board, a second stroke followed by one undo leaves the
    empty document, not the one-stroke document; so does one stroke and
    one undo on a board that was loaded with a rectangle. *)
Lemma undo_redo_inverse_counterexample :
  (let s := run Qsqrt (strokes 51) (initialState None) in
   countCommits Qsqrt (strokes 51) (initialState None) = 51%nat
   /\ elements (times 51 handleUndo s) = [sampleStroke1]
   /\ elements (times 51 handleUndo s) <> elements (initialState None))
  /\
  (let s1 := run Qsqrt strokeTrace (initialState None) in
   let s2 := run Qsqrt strokeTrace s1 in
   countCommits Qsqrt strokeTrace s1 = 1%nat
   /\ elements s1 = [sampleStroke1]
   /\ elements (times 1 handleUndo s2) = []
   /\ elements (times 1 handleUndo s2) <> elements s1)
  /\
  (let s1 := initialState (Some [sampleRect]) in
   let s2 := run Qsqrt strokeTrace s1 in
   countCommits Qsqrt strokeTrace s1 = 1%nat
   /\ elements s1 = [sampleRect]
   /\ elements (times 1 handleUndo s2) = []
   /\ elements (times 1 handleUndo s2) <> elements s1).
Proof.
  split; [|split].
  - split; [vm_compute; reflexivity|].
    split; [vm_compute; reflexivity|].
    vm_compute. discriminate.
  - split; [vm_compute; reflexivity|].
    split; [vm_compute; reflexivity|].
    split; [vm_compute; reflexivity|].
    vm_compute. discriminate.
  - split; [vm_compute; reflexivity|].
    split; [vm_compute; reflexivity|].
    split; [vm_compute; reflexivity|].
    vm_compute. discriminate.
Qed.

Lemma lookup_In {A} (l : list A) (i : Z) (a : A) : lookup l i = Some a -> In a l.
Proof.
  unfold lookup. destruct (i <? 0)%Z; [discriminate|]. apply nth_error_In.
Qed.

(** Undo only ever shows the current document or a snapshot of the
    history. *)
Lemma undo_stays_in_history (m : nat) : forall s : State,
  elements (times m handleUndo s) = elements s
  \/ In (elements (times m handleUndo s)) (history s).
Proof.
  induction m as [|m IH]; intros s; [now left|].
  cbn [times].
  destruct (Z_le_gt_dec (historyIndex s) 0) as [Hz|Hp].
  - rewrite handleUndo_at_zero by exact Hz. apply IH.
  - destruct (handleUndo_fields s) as (Hh & _ & _ & He); [lia|].
    destruct (IH (handleUndo s)) as [E|E].
    + rewrite E, He.
      destruct (lookup (history s) (historyIndex s - 2)) as [d|] eqn:Hl;
        [right; now apply lookup_In in Hl | now left].
    + right. now rewrite <- Hh.
Qed.

(** From the fresh board, a run whose commits are exactly 60 and all
    append an element leaves a history of exactly 50 snapshots, those of
    the documents of 10, 11, ..., 59 elements: the 10 oldest, the empty
    start among them, are gone.  50 undos stop at the document of 10
    elements, and no number of undos shows an empty document. *)
Lemma history_of_sixty_adds (sqrt : Q -> Q) (tr : list (Env * Event)) :
  editsOnly tr = true ->
  onlyAdds sqrt tr (initialState None) = true ->
  countCommits sqrt tr (initialState None) = 60%nat ->
  let s := run sqrt tr (initialState None) in
  List.length (history s) = 50%nat
  /\ map (@List.length CanvasElement) (history s) = seq 10 50
  /\ List.length (elements (times 50 handleUndo s)) = 10%nat
  /\ forall m, elements (times m handleUndo s) <> [].
Proof.
  intros Hed Hadd Hn s.
  pose proof (AddsInv_run sqrt tr 0 (initialState None) AddsInv_init Hed Hadd) as Hinv.
  rewrite Hn in Hinv. cbn [Nat.add] in Hinv. fold s in Hinv.
  destruct Hinv as (Hi & Hr & Hlen & Hmap).
  assert (Hw : lastn 50 (O :: seq 0 60) = seq 10 50) by (vm_compute; reflexivity).
  rewrite Hw in Hmap.
  assert (Hl : List.length (history s) = 50%nat).
  { rewrite <- (length_map (@List.length CanvasElement)), Hmap. apply length_seq. }
  assert (Hidx : historyIndex s = 50%Z).
  { rewrite Hi. unfold lengthZ. rewrite Hl. reflexivity. }
  assert (Hle : (historyIndex s <= lengthZ (history s))%Z) by (rewrite Hi; lia).
  assert (Hbig : forall d, In d (history s) -> (10 <= List.length d)%nat).
  { intros d Hd. apply (in_map (@List.length CanvasElement)) in Hd.
    rewrite Hmap in Hd. apply in_seq in Hd. lia. }
  split; [exact Hl|]. split; [exact Hmap|]. split.
  - destruct (history s) as [|d0 h] eqn:Hh; [discriminate|].
    assert (He : elements (times 50 handleUndo s) = d0).
    { apply undo_reaches_base.
      - rewrite Hh. exact Hle.
      - rewrite Hidx. lia.
      - intros _. now rewrite Hh.
      - rewrite Hidx. lia. }
    rewrite He. simpl in Hmap. now inversion Hmap.
  - intros m Hnil.
    destruct (undo_stays_in_history m s) as [E|E].
    + rewrite Hnil in E. rewrite <- E in Hlen. discriminate.
    + apply Hbig in E. rewrite Hnil in E. simpl in E. lia.
Qed.

Lemma history_log_step (sqrt : Q -> Q) (env : Env) (ev : Event) (s : State)
      (log : list Document) :
  history s = lastn 50 log -> historyIndex s = lengthZ (history s) ->
  isEdit ev = true ->
  history (step sqrt env ev s)
  = lastn 50 (log ++ if takesSnapshot (commitKind env ev s) then [elements s] else [])
  /\ historyIndex (step sqrt env ev s) = lengthZ (history (step sqrt env ev s)).
Proof.
  intros Hlog Hi Hev.
  pose proof (step_effect sqrt env ev s Hev) as He.
  assert (Hcases :
            (takesSnapshot (commitKind env ev s) = false
             /\ historyState (step sqrt env ev s) = historyState s)
            \/ (takesSnapshot (commitKind env ev s) = true
                /\ historyState (step sqrt env ev s) = historyState (saveToHistory s))).
  { destruct (commitKind env ev s); cbn [stepEffect takesSnapshot] in *;
      (left; split; [reflexivity | exact (proj1 He)])
      || (right; split; [reflexivity | exact (proj1 He)]). }
  clear He. destruct Hcases as [(Hk & Hh)|(Hk & Hh)]; rewrite Hk.
  - destruct (historyState_inv _ _ Hh) as (H1 & H2 & _).
    rewrite app_nil_r, H1, H2. split; assumption.
  - destruct (saveToHistory_historyState s _ Hi Hh) as (H1 & H2 & _).
    split; [|rewrite H2, H1; reflexivity].
    rewrite H1, lastn_snoc, <- Hlog.
    unfold lengthZ, MAX_HISTORY_STEPS. unfold Document in *.
    match goal with
    | |- context [(50 <? ?n)%nat] => destruct (Nat.ltb_spec 50 n) as [H|H]
    end.
    + match goal with
      | |- context [(Z.of_nat ?n >? 50)%Z] =>
          replace (Z.of_nat n >? 50)%Z with true
            by (symmetry; rewrite Z.gtb_ltb; apply Z.ltb_lt; lia)
      end.
      reflexivity.
    + match goal with
      | |- context [(Z.of_nat ?n >? 50)%Z] =>
          replace (Z.of_nat n >? 50)%Z with false
            by (symmetry; rewrite Z.gtb_ltb; apply Z.ltb_ge; lia)
      end.
      reflexivity.
Qed.

Lemma history_log_run (sqrt : Q -> Q) (tr : list (Env * Event)) :
  forall (log : list Document) (s : State),
    history s = lastn 50 log -> historyIndex s = lengthZ (history s) ->
    editsOnly tr = true ->
    history (run sqrt tr s) = lastn 50 (log ++ snapshotsTaken sqrt tr s)
    /\ historyIndex (run sqrt tr s) = lengthZ (history (run sqrt tr s)).
Proof.
  induction tr as [|[env ev] tr IH]; intros log s Hlog Hi Hed.
  - cbn [run snapshotsTaken]. rewrite app_nil_r. split; assumption.
  - simpl in Hed. apply andb_prop in Hed as [Hev Hed].
    cbn [run snapshotsTaken]. rewrite app_assoc.
    destruct (history_log_step sqrt env ev s log Hlog Hi Hev) as (H1 & H2).
    apply IH; assumption.
Qed.

Lemma onlyAdds_snapshots (sqrt : Q -> Q) (tr : list (Env * Event)) :
  forall s : State,
    onlyAdds sqrt tr s = true ->
    List.length (snapshotsTaken sqrt tr s) = countCommits sqrt tr s.
Proof.
  induction tr as [|[env ev] tr IH]; intros s Hadd; [reflexivity|].
  cbn [onlyAdds] in Hadd. apply andb_prop in Hadd as [Ha Hadd].
  cbn [snapshotsTaken countCommits]. rewrite length_app, (IH _ Hadd).
  destruct (commitKind env ev s); try discriminate; reflexivity.
Qed.

Lemma nth_skipn_hd {A} (n : nat) (d : A) :
  forall l : list A, nth n l d = hd d (skipn n l).
Proof.
  induction n as [|n IH]; intros [|a l]; try reflexivity. cbn [nth skipn]. apply IH.
Qed.

(** C8, as the code has it: from the fresh board, after a run of edit
    events in which 60 commits take a snapshot (whatever they are: an
    added element, the end of a drag, a delete), the history holds exactly
    50 snapshots, those of the last 50 of these commits: the seed and the
    10 oldest are gone.  50 undos stop at the oldest snapshot kept, the
    document as it stood at the 11th of the commits; when every commit
    appends an element no number of undos shows an empty document. *)
Theorem history_bound_after_60 (sqrt : Q -> Q) (tr : list (Env * Event)) :
  editsOnly tr = true ->
  List.length (snapshotsTaken sqrt tr (initialState None)) = 60%nat ->
  let s := run sqrt tr (initialState None) in
  List.length (history s) = 50%nat
  /\ history s = skipn 10 (snapshotsTaken sqrt tr (initialState None))
  /\ elements (times 50 handleUndo s)
     = nth 10 (snapshotsTaken sqrt tr (initialState None)) []
  /\ (onlyAdds sqrt tr (initialState None) = true ->
      forall m, elements (times m handleUndo s) <> []).
Proof.
  intros Hed Hn s.
  destruct (history_log_run sqrt tr [[]] (initialState None) eq_refl eq_refl Hed)
    as (Hh & Hi).
  fold s in Hh, Hi.
  assert (Hskip : history s = skipn 10 (snapshotsTaken sqrt tr (initialState None))).
  { rewrite Hh. unfold lastn. rewrite length_app, Hn. reflexivity. }
  assert (Hl : List.length (history s) = 50%nat).
  { rewrite Hskip, length_skipn, Hn. reflexivity. }
  split; [exact Hl|]. split; [exact Hskip|]. split.
  - assert (Hidx : historyIndex s = 50%Z).
    { rewrite Hi. unfold lengthZ. now rewrite Hl. }
    rewrite nth_skipn_hd, <- Hskip.
    destruct (history s) as [|d0 h] eqn:E; [discriminate|].
    cbn [hd]. apply undo_reaches_base.
    + rewrite Hi, E. apply Z.le_refl.
    + rewrite Hidx. lia.
    + intros _. now rewrite E.
    + rewrite Hidx. lia.
  - intros Hadd.
    apply (history_of_sixty_adds sqrt tr Hed Hadd).
    now rewrite <- (onlyAdds_snapshots sqrt tr _ Hadd).
Qed.

Lemma history_bound_after_60_witness :
  let s := run Qsqrt (strokes 59 ++ selectClick) (initialState None) in
  List.length (history s) = 50%nat
  /\ List.length (elements (times 50 handleUndo s)) = 10%nat.
Proof.
  intros s.
  destruct (history_bound_after_60 Qsqrt (strokes 59 ++ selectClick))
    as (H1 & _ & H3 & _).
  - vm_compute. reflexivity.
  - vm_compute. reflexivity.
  - fold s in H1, H3. split; [exact H1|]. rewrite H3. vm_compute. reflexivity.
Defined.

(** C8 as stated fails: twelve rounds of a stroke, three clicks on it and
    its deletion are 60 committed mutations, each with its snapshot; the
    history holds 50 snapshots, and 50 undos end on the empty document,
    the snapshot taken at the stroke of the third round. *)
Lemma history_bound_counterexample :
  editsOnly twelveRounds = true
  /\ countCommits Qsqrt twelveRounds (initialState None) = 60%nat
  /\ List.length (snapshotsTaken Qsqrt twelveRounds (initialState None)) = 60%nat
  /\ List.length (history (run Qsqrt twelveRounds (initialState None))) = 50%nat
  /\ elements (times 50 handleUndo (run Qsqrt twelveRounds (initialState None))) = [].
Proof. vm_compute. repeat split. Qed.

(** C1 fails on the code: on the fresh board, where nothing has been
    committed and the undo counter shows 0, [handleUndo] leaves the
    document alone but moves the index to 0 and pushes a snapshot on the
    redo stack; a redo then grows the history.  With the index at 0 a
    stroke drawn next can no longer be undone. *)
Theorem undo_on_fresh_board_is_not_a_noop :
  let s0 := initialState None in
  undoCount s0 = 0%Z /\ historyIndex s0 = 1%Z /\ redoStack s0 = []
  /\ elements (handleUndo s0) = elements s0
  /\ historyIndex (handleUndo s0) = 0%Z
  /\ redoStack (handleUndo s0) = [[]]
  /\ redoCount (handleUndo s0) = 1%Z
  /\ history (handleRedo (handleUndo s0)) = [[]; []]
  /\ undoCount (handleRedo (handleUndo s0)) = 1%Z
  /\ (let s1 := run Qsqrt strokeTrace (handleUndo s0) in
      elements s1 = [sampleStroke1] /\ elements (handleUndo s1) = [sampleStroke1]).
Proof. vm_compute. repeat split. Qed.

(** ** Commits and snapshots *)

(** C3 fails on the code.  [clearCanvas] empties the document without a
    snapshot and without touching the redo stack, so the cleared stroke
    cannot be brought back; and the snapshot of a drag is taken at
    pointer-up, after the element has been moved. *)
Theorem clear_and_drag_miss_the_snapshot :
  (let s1 := run Qsqrt strokeTrace (initialState None) in
   elements s1 = [sampleStroke1]
   /\ elements (clearCanvas s1) = []
   /\ historyState (clearCanvas s1) = historyState s1
   /\ ~ In [sampleStroke1] (history (clearCanvas s1))
   /\ elements (handleUndo (clearCanvas s1)) = [])
  /\
  (let s2 := handleUndo (run Qsqrt (strokeTrace ++ strokeTrace) (initialState None)) in
   redoStack s2 <> [] /\ redoStack (clearCanvas s2) = redoStack s2)
  /\
  (let s1 := run Qsqrt strokeTrace (initialState None) in
   let s3 := run Qsqrt dragTrace s1 in
   elements s3 <> elements s1
   /\ lookup (history s3) (lengthZ (history s3) - 1) = Some (elements s3)
   /\ ~ In (elements s1) (history s3)).
Proof.
  split; [|split].
  - vm_compute. repeat split; try reflexivity.
    intros [H|[H|[]]]; discriminate.
  - vm_compute. split; [discriminate | reflexivity].
  - vm_compute. repeat split; try discriminate.
    intros [H|[H|[H|[]]]]; discriminate.
Qed.

(** The sibling paths do take the snapshot first: a stroke, shape or
    text commit and a delete leave the history that [saveToHistory] builds
    from the document as it was before the change, and an empty redo
    stack. *)
Lemma add_and_delete_snapshot_first (sqrt : Q -> Q) (env : Env) (ev : Event) (s : State) :
  isEdit ev = true ->
  commitKind env ev s = AddCommit \/ commitKind env ev s = DeleteCommit ->
  historyState (step sqrt env ev s) = historyState (saveToHistory s)
  /\ redoStack (step sqrt env ev s) = [].
Proof.
  intros Hev Hk.
  pose proof (step_effect sqrt env ev s Hev) as He.
  assert (Hh : historyState (step sqrt env ev s) = historyState (saveToHistory s)).
  { destruct Hk as [Hk|Hk]; rewrite Hk in He; exact (proj1 He). }
  split; [exact Hh|].
  destruct (historyState_inv _ _ Hh) as (_ & _ & Hr). rewrite Hr.
  apply (saveToHistory_frame s).
Qed.

(** ** Drawing a path *)

Lemma handleMove_pencil (env : Env) (m : PointerEvent) (s : State)
      (cur : CanvasElement) (pts : list Point) :
  isPanning s = false -> isDragging s = false -> isDrawing s = true ->
  currentElement s = Some cur -> type cur = Pencil -> points cur = Some pts ->
  handleMove env m s =
  set_currentElement
    (Some (set_points
             (Some (pts ++ [screenToWorld (ptX (getPointerPos env m))
                                          (ptY (getPointerPos env m))
                                          (scale (transform s))
                                          (offset (transform s))]))
             cur)) s.
Proof.
  intros Hp Hd Hw Hc Ht Hpts. unfold handleMove.
  now rewrite Hp, Hd, Hw, Hc, Ht, Hpts.
Qed.

Lemma handleMove_eraser (env : Env) (m : PointerEvent) (s : State)
      (cur : CanvasElement) :
  isPanning s = false -> isDragging s = false -> isDrawing s = true ->
  currentElement s = Some cur -> type cur = Eraser -> endX cur = None ->
  handleMove env m s = s.
Proof.
  intros Hp Hd Hw Hc Ht He. unfold handleMove.
  rewrite Hp, Hd, Hw, Hc, Ht, He. cbn [ElementType_eqb].
  now destruct (points cur).
Qed.

(** A pencil path gains one point per move. *)
Lemma pencil_path_grows (env : Env) (ms : list PointerEvent) :
  forall (s : State) (cur : CanvasElement) (pts : list Point),
    isPanning s = false -> isDragging s = false -> isDrawing s = true ->
    currentElement s = Some cur -> type cur = Pencil -> points cur = Some pts ->
    pathLength (moves env ms s) = Some (List.length pts + List.length ms)%nat.
Proof.
  induction ms as [|m ms IH]; intros s cur pts Hp Hd Hw Hc Ht Hpts.
  - unfold pathLength. simpl. rewrite Hc. simpl. rewrite Hpts. simpl.
    now rewrite Nat.add_0_r.
  - change (moves env (m :: ms) s) with (moves env ms (handleMove env m s)).
    rewrite (handleMove_pencil env m s cur pts Hp Hd Hw Hc Ht Hpts).
    erewrite IH; try reflexivity; try assumption.
    rewrite length_app. simpl. f_equal. lia.
Qed.

(** An eraser path never grows. *)
Lemma eraser_path_stuck (env : Env) (ms : list PointerEvent) (s : State)
      (cur : CanvasElement) :
  isPanning s = false -> isDragging s = false -> isDrawing s = true ->
  currentElement s = Some cur -> type cur = Eraser -> endX cur = None ->
  moves env ms s = s.
Proof.
  intros Hp Hd Hw Hc Ht He. induction ms as [|m ms IH]; [reflexivity|].
  change (moves env (m :: ms) s) with (moves env ms (handleMove env m s)).
  now rewrite (handleMove_eraser env m s cur Hp Hd Hw Hc Ht He).
Qed.

(** C4 fails on the code for the eraser.  After pointer-down and [k]
    moves a pencil path has [k + 1] points; an eraser path still has its
    one seed point, and pointer-up then discards it. *)
Theorem eraser_moves_append_nothing :
  let down := handleStart Qsqrt in
  let ms := [mouseAt 10 10; mouseAt 20 5; mouseAt 30 0] in
  let pen := moves (sampleEnv ToolPen) ms
                   (down (sampleEnv ToolPen) (mouseAt 0 0) (initialState None)) in
  let era := moves (sampleEnv ToolEraser) ms
                   (down (sampleEnv ToolEraser) (mouseAt 0 0) (initialState None)) in
  pathLength pen = Some 4%nat
  /\ pathLength era = Some 1%nat
  /\ option_map type (currentElement era) = Some Eraser
  /\ List.length (elements (handleEnd pen)) = 1%nat
  /\ elements (handleEnd era) = [].
Proof. vm_compute. repeat split. Qed.

(** ** Degenerate shapes *)

Lemma zero_extent_not_above_one (a : Q) : Qgtb (Qabs (a - a)) 1 = false.
Proof.
  unfold Qgtb. apply negb_false_iff, Qle_bool_iff.
  assert (H : a - a == 0) by ring.
  rewrite H. discriminate.
Qed.

Lemma Qgtb_lt (a b : Q) : Qgtb a b = true <-> b < a.
Proof.
  unfold Qgtb. rewrite negb_true_iff. split.
  - intros H. apply Qnot_le_lt. intros Hle.
    apply Qle_bool_iff in Hle. congruence.
  - intros H. destruct (Qle_bool a b) eqn:E; [|reflexivity].
    apply Qle_bool_iff in E. exfalso. now apply (Qlt_not_le b a).
Qed.

(** The validity test of [handleEnd], in words. *)
Lemma isValid_iff (cur : CanvasElement) :
  isValid cur = true <->
  (isPath (type cur) = true
   /\ exists pts, points cur = Some pts /\ (2 <= List.length pts)%nat)
  \/ (exists ex ey, endX cur = Some ex /\ endY cur = Some ey
                    /\ (1 < Qabs (ex - x cur) \/ 1 < Qabs (ey - y cur))).
Proof.
  unfold isValid. split.
  - destruct (points cur) as [pts|] eqn:Hp.
    + destruct (isPath (type cur) && (1 <? List.length pts)%nat)%bool eqn:Hl.
      * intros _. left. apply andb_prop in Hl as [H1 H2].
        split; [exact H1|]. exists pts. split; [reflexivity|].
        apply Nat.ltb_lt in H2. lia.
      * destruct (endX cur) as [ex|], (endY cur) as [ey|]; try discriminate.
        intros H. right. exists ex, ey. repeat split.
        apply orb_prop in H as [H|H]; apply Qgtb_lt in H; auto.
    + destruct (endX cur) as [ex|], (endY cur) as [ey|]; try discriminate.
      intros H. right. exists ex, ey. repeat split.
      apply orb_prop in H as [H|H]; apply Qgtb_lt in H; auto.
  - intros [(Hpath & pts & Hp & Hl)|(ex & ey & Hx & Hy & Hbig)].
    + rewrite Hp, Hpath. cbn [andb].
      replace (1 <? List.length pts)%nat with true
        by (symmetry; apply Nat.ltb_lt; lia).
      reflexivity.
    + rewrite Hx, Hy.
      assert (Hb : (Qgtb (Qabs (ex - x cur)) 1 || Qgtb (Qabs (ey - y cur)) 1)%bool = true).
      { apply orb_true_iff. destruct Hbig as [H|H]; [left|right]; now apply Qgtb_lt. }
      rewrite Hb. now destruct (points cur) as [pts|];
        [destruct (isPath (type cur) && (1 <? List.length pts)%nat)%bool|].
Qed.

Lemma saveToHistory_saveCalls (s : State) :
  saveCalls (saveToHistory s) = saveCalls s.
Proof.
  exact (proj1 (proj2 (proj2 (proj2 (proj2 (proj2 (proj2 (proj2 (proj2
           (saveToHistory_frame s)))))))))).
Qed.

Lemma handleEnd_drawing (s : State) (cur : CanvasElement) :
  isPanning s = false -> isDragging s = false -> isDrawing s = true ->
  currentElement s = Some cur ->
  handleEnd s =
  set_currentElement None
    (if isValid cur
     then debouncedSave
            (set_elements (elements (saveToHistory (set_isDrawing false s)) ++ [cur])
                          (saveToHistory (set_isDrawing false s)))
     else set_isDrawing false s).
Proof.
  intros Hp Hd Hw Hc. unfold handleEnd. now rewrite Hp, Hd, Hw, Hc.
Qed.

Lemma handleEnd_panning (s : State) :
  isPanning s = true -> handleEnd s = set_isPanning false s.
Proof. intros H. unfold handleEnd. now rewrite H. Qed.

Lemma handleEnd_idle (s : State) :
  isPanning s = false -> isDragging s = false -> isDrawing s = false ->
  handleEnd s = s.
Proof. intros Hp Hd Hw. unfold handleEnd. now rewrite Hp, Hd, Hw. Qed.

Lemma clickedShape_invalid (env : Env) (ty : ElementType) (p : Point) :
  isValid (clickedShape env ty p) = false.
Proof.
  unfold isValid, clickedShape. cbn [points endX endY x y].
  now rewrite !zero_extent_not_above_one.
Qed.

Lemma handleStart_shape_cases (sqrt : Q -> Q) (env : Env) (e : PointerEvent)
      (s : State) (ty : ElementType) :
  shapeType (tool env) = Some ty ->
  handleStart sqrt env e s
  = set_lastMousePos (getPointerPos env e) (set_isPanning true s)
  \/ handleStart sqrt env e s = s
  \/ handleStart sqrt env e s
     = set_currentElement
         (Some (clickedShape env ty
                  (screenToWorld (ptX (getPointerPos env e)) (ptY (getPointerPos env e))
                                 (scale (transform s)) (offset (transform s)))))
         (set_isDrawing true s).
Proof.
  intros Ht. unfold handleStart, clickedShape.
  destruct (tool env); try discriminate;
    cbn [Tool_eqb orb isPathTool shapeType] in *; injection Ht as <-;
    (destruct e as [b sh cx cy|cx cy];
     [destruct (b =? 1)%Z; [|destruct sh; [|destruct (b =? 0)%Z]] |]);
    cbn [orb andb negb]; auto.
Qed.

(** A click with a shape tool leaves the board as it was. *)
Lemma shape_click_discarded (sqrt : Q -> Q) (env : Env) (e : PointerEvent) (s : State) :
  idle s ->
  shapeType (tool env) <> None ->
  let s' := handleEnd (handleStart sqrt env e s) in
  elements s' = elements s /\ historyState s' = historyState s
  /\ saveCalls s' = saveCalls s /\ currentElement s' = None.
Proof.
  intros (Hp & Hd & Hw & Hc) Ht s'. subst s'.
  destruct (shapeType (tool env)) as [ty|] eqn:Hty; [clear Ht | congruence].
  destruct (handleStart_shape_cases sqrt env e s ty Hty) as [E|[E|E]]; rewrite E.
  - rewrite handleEnd_panning by reflexivity.
    repeat split. rewrite <- Hc. reflexivity.
  - rewrite handleEnd_idle by assumption. now repeat split.
  - erewrite handleEnd_drawing; [| exact Hp | exact Hd | reflexivity | reflexivity].
    rewrite clickedShape_invalid. repeat split.
Qed.

(** C9: pointer-down and pointer-up at one place with a shape tool change
    neither the document nor the history and request no save.  In general
    [handleEnd] commits the element in progress exactly when it is a path
    of at least 2 points or has end points more than 1 world unit away
    from its origin along some axis (the shapes are the elements with end
    points); otherwise the element is dropped and the document is as it
    was. *)
Theorem degenerate_draw_discarded (sqrt : Q -> Q) (env : Env) (e : PointerEvent)
        (s s2 : State) (cur : CanvasElement) :
  idle s ->
  shapeType (tool env) <> None ->
  isPanning s2 = false -> isDragging s2 = false -> isDrawing s2 = true ->
  currentElement s2 = Some cur ->
  (let s' := handleEnd (handleStart sqrt env e s) in
   elements s' = elements s /\ historyState s' = historyState s
   /\ saveCalls s' = saveCalls s /\ currentElement s' = None)
  /\ (isValid cur = true <->
      (isPath (type cur) = true
       /\ exists pts, points cur = Some pts /\ (2 <= List.length pts)%nat)
      \/ (exists ex ey, endX cur = Some ex /\ endY cur = Some ey
                        /\ (1 < Qabs (ex - x cur) \/ 1 < Qabs (ey - y cur))))
  /\ (isValid cur = true ->
      elements (handleEnd s2) = elements s2 ++ [cur]
      /\ historyState (handleEnd s2) = historyState (saveToHistory s2)
      /\ saveCalls (handleEnd s2) = S (saveCalls s2))
  /\ (isValid cur = false ->
      elements (handleEnd s2) = elements s2
      /\ historyState (handleEnd s2) = historyState s2
      /\ saveCalls (handleEnd s2) = saveCalls s2)
  /\ currentElement (handleEnd s2) = None.
Proof.
  intros Hidle Ht Hp Hd Hw Hc.
  split; [now apply shape_click_discarded|].
  split; [apply isValid_iff|].
  rewrite (handleEnd_drawing s2 cur Hp Hd Hw Hc).
  split; [|split].
  - intros Hv. rewrite Hv, saveToHistory_set_isDrawing.
    generalize (saveToHistory_elements s2) (saveToHistory_saveCalls s2).
    generalize (saveToHistory s2). intros z He Hs.
    cbn [elements saveCalls set_currentElement debouncedSave set_saveCalls
         set_elements set_isDrawing].
    rewrite He, Hs. repeat split.
  - intros Hv. rewrite Hv. repeat split.
  - reflexivity.
Qed.

Lemma degenerate_draw_discarded_witness :
  let env := sampleEnv ToolRectangle in
  let s := initialState None in
  let s' := handleEnd (handleStart Qsqrt env (mouseAt 40 40) s) in
  elements s' = elements s /\ historyState s' = historyState s
  /\ saveCalls s' = saveCalls s /\ currentElement s' = None.
Proof.
  intros env s s'.
  refine (proj1 (degenerate_draw_discarded
                   Qsqrt env (mouseAt 40 40) s
                   (handleMove env (mouseAt 50 60)
                      (handleStart Qsqrt env (mouseAt 40 40) s))
                   (mkElement "1700000000000" Rectangle 40 40 (Some 50) (Some 60)
                              None None "#000000" 3 None None)
                   _ _ _ _ _ _)).
  - repeat split.
  - discriminate.
  - reflexivity.
  - reflexivity.
  - reflexivity.
  - vm_compute. reflexivity.
Defined.

(** ** Text entry *)

Lemma trimStart_spec (s : string) :
  exists l, s = (l ++ trimStart s)%string /\ isBlank l = true
            /\ startsWithSpace (trimStart s) = false.
Proof.
  induction s as [|c r IH].
  - exists EmptyString. repeat split.
  - simpl. destruct (isWhiteSpace c) eqn:Hc.
    + destruct IH as (l & Hl & Hb & Hs).
      exists (String c l). simpl. rewrite Hc, Hb, <- Hl. repeat split. exact Hs.
    + exists EmptyString. simpl. now repeat split.
Qed.

Lemma trimEnd_spec (s : string) :
  exists r, s = (trimEnd s ++ r)%string /\ isBlank r = true
            /\ endsWithSpace (trimEnd s) = false.
Proof.
  induction s as [|c s IH].
  - exists EmptyString. repeat split.
  - destruct IH as (r & Hr & Hb & He). simpl.
    destruct (trimEnd s) as [|c' t] eqn:Ht.
    + simpl in Hr. subst r.
      destruct (isWhiteSpace c) eqn:Hc.
      * exists (String c s). simpl. rewrite Hc, Hb. now repeat split.
      * exists s. simpl. rewrite Hc. now repeat split.
    + exists r. split; [simpl; f_equal; exact Hr|]. split; [exact Hb|].
      exact He.
Qed.

Lemma trimEnd_keeps_start (s : string) :
  startsWithSpace s = false -> startsWithSpace (trimEnd s) = false.
Proof.
  destruct s as [|c s]; [reflexivity|]. simpl. intros Hc.
  destruct (trimEnd s); [rewrite Hc|]; simpl; auto.
Qed.

Lemma trimEnd_blank (s : string) : isBlank s = true <-> trimEnd s = EmptyString.
Proof.
  induction s as [|c s IH]; [now split|]. simpl. split.
  - intros H. apply andb_prop in H as [Hc Hs].
    apply IH in Hs. now rewrite Hs, Hc.
  - destruct (trimEnd s) eqn:Ht; [|discriminate].
    destruct (isWhiteSpace c); [|discriminate].
    intros _. simpl. now apply IH.
Qed.

Lemma trimStart_blank (s : string) : isBlank s = isBlank (trimStart s).
Proof.
  induction s as [|c s IH]; [reflexivity|]. simpl.
  destruct (isWhiteSpace c) eqn:Hc; simpl; [exact IH | now rewrite Hc].
Qed.

Lemma trim_blank (s : string) : isBlank s = negb (truthy (trim s)).
Proof.
  unfold trim. rewrite trimStart_blank.
  destruct (isBlank (trimStart s)) eqn:Hb.
  - apply trimEnd_blank in Hb. now rewrite Hb.
  - destruct (trimEnd (trimStart s)) eqn:Ht; [|reflexivity].
    apply trimEnd_blank in Ht. congruence.
Qed.

(** [trim] removes exactly the white space at both ends. *)
Lemma trim_spec (s : string) :
  (exists l r, s = (l ++ trim s ++ r)%string /\ isBlank l = true /\ isBlank r = true)
  /\ startsWithSpace (trim s) = false /\ endsWithSpace (trim s) = false.
Proof.
  unfold trim.
  destruct (trimStart_spec s) as (l & Hl & Hbl & Hs).
  destruct (trimEnd_spec (trimStart s)) as (r & Hr & Hbr & He).
  split; [|split].
  - exists l, r. rewrite <- Hr. now repeat split.
  - now apply trimEnd_keeps_start.
  - exact He.
Qed.

(** C10: the committed text is the trimmed entry, which has no white
    space left at either end; a blank entry only closes the overlay, so
    the document, the history and the pending save are as they were. *)
Theorem text_commit_trims (env : Env) (entry : string) (s : State) :
  ((exists l r, entry = (l ++ trim entry ++ r)%string
                /\ isBlank l = true /\ isBlank r = true)
   /\ startsWithSpace (trim entry) = false /\ endsWithSpace (trim entry) = false)
  /\ (isBlank entry = true ->
      handleTextCommit env entry s = set_textInputState None s
      /\ elements (handleTextCommit env entry s) = elements s
      /\ historyState (handleTextCommit env entry s) = historyState s
      /\ saveCalls (handleTextCommit env entry s) = saveCalls s)
  /\ (forall ti rect,
         textInputState s = Some ti -> canvas env = Some rect ->
         isBlank entry = false ->
         exists el,
           elements (handleTextCommit env entry s) = elements s ++ [el]
           /\ type el = Text /\ text el = Some (trim entry)
           /\ x el = worldX ti /\ y el = worldY ti
           /\ historyState (handleTextCommit env entry s)
              = historyState (saveToHistory s)
           /\ saveCalls (handleTextCommit env entry s) = S (saveCalls s)).
Proof.
  split; [apply trim_spec|]. split.
  - intros Hb. rewrite trim_blank in Hb. apply negb_true_iff in Hb.
    assert (E : handleTextCommit env entry s = set_textInputState None s).
    { unfold handleTextCommit. rewrite Hb. cbn [negb].
      now destruct (textInputState s). }
    rewrite E. now repeat split.
  - intros ti rect Hti Hc Hb. rewrite trim_blank in Hb. apply negb_false_iff in Hb.
    unfold handleTextCommit. rewrite Hti, Hb, Hc. cbn [negb].
    generalize (saveToHistory_elements s) (saveToHistory_saveCalls s).
    generalize (saveToHistory s). intros z He Hs.
    eexists.
    cbn [elements saveCalls set_textInputState debouncedSave set_saveCalls
         set_elements].
    rewrite He, Hs. split; [reflexivity|]. repeat split.
Qed.

Lemma text_commit_trims_witness :
  let env := sampleEnv ToolText in
  let s := handleStart Qsqrt env (mouseAt 30 40) (initialState None) in
  handleTextCommit env "   "%string s = set_textInputState None s
  /\ option_map text (last_error (elements (handleTextCommit env "  hi there "%string s)))
     = Some (Some "hi there"%string).
Proof.
  intros env s.
  destruct (text_commit_trims env "   "%string s) as (_ & Hblank & _).
  destruct (text_commit_trims env "  hi there "%string s) as (_ & _ & Hadd).
  split; [exact (proj1 (Hblank eq_refl))|].
  destruct (Hadd (mkTextInput 30 40 30 40 None) (mkRect 0 0)
                 ltac:(vm_compute; reflexivity) eq_refl eq_refl)
    as (el & Hel & _ & Htx & _).
  rewrite Hel. unfold last_error. rewrite rev_app_distr. simpl. now rewrite Htx.
Defined.

(** * Further properties *)

(** ** Bounding boxes *)

Lemma pathBounds_acc (ps : list Point) : forall b : Bounds,
  let r := fold_left
             (fun b point =>
                {| minX := Qmin (minX b) (ptX point);
                   minY := Qmin (minY b) (ptY point);
                   maxX := Qmax (maxX b) (ptX point);
                   maxY := Qmax (maxY b) (ptY point) |}) ps b in
  (minX r <= minX b /\ maxX b <= maxX r /\ minY r <= minY b /\ maxY b <= maxY r)
  /\ forall p, In p ps ->
               minX r <= ptX p /\ ptX p <= maxX r /\ minY r <= ptY p /\ ptY p <= maxY r.
Proof.
  induction ps as [|q ps IH]; intros b; cbn [fold_left].
  - split; [repeat split; apply Qle_refl | intros p []].
  - match goal with |- context [fold_left _ ps ?b1] => destruct (IH b1) as ((H1 & H2 & H3 & H4) & Hin) end.
    cbn [minX maxX minY maxY] in H1, H2, H3, H4.
    split.
    + repeat split.
      * eapply Qle_trans; [exact H1 | apply Q.le_min_l].
      * eapply Qle_trans; [apply Q.le_max_l | exact H2].
      * eapply Qle_trans; [exact H3 | apply Q.le_min_l].
      * eapply Qle_trans; [apply Q.le_max_l | exact H4].
    + intros p [<-|Hp]; [|now apply Hin].
      repeat split.
      * eapply Qle_trans; [exact H1 | apply Q.le_min_r].
      * eapply Qle_trans; [apply Q.le_max_r | exact H2].
      * eapply Qle_trans; [exact H3 | apply Q.le_min_r].
      * eapply Qle_trans; [apply Q.le_max_r | exact H4].
Qed.

(** X1: the bounding box of a pencil or eraser element with a non-empty
    path contains every point of the path. *)
Theorem bounds_contain_path (e : CanvasElement) (pts : list Point) (p : Point) :
  isPath (type e) = true -> points e = Some pts -> In p pts ->
  let b := getElementBounds e in
  minX b <= ptX p /\ ptX p <= maxX b /\ minY b <= ptY p /\ ptY p <= maxY b.
Proof.
  intros Ht Hp Hin b. subst b. unfold getElementBounds. rewrite Ht, Hp.
  destruct pts as [|p0 ps]; [destruct Hin|].
  unfold pathBounds. now apply pathBounds_acc.
Qed.

Lemma bounds_contain_path_witness :
  let b := getElementBounds sampleStroke in
  minX b <= 10 /\ 10 <= maxX b /\ minY b <= 10 /\ 10 <= maxY b.
Proof.
  apply (bounds_contain_path sampleStroke [mkPoint 0 0; mkPoint 10 10] (mkPoint 10 10));
    [reflexivity | reflexivity | simpl; auto].
Defined.

Lemma Qmax_minus_Qmin (a b : Q) : Qmax a b - Qmin a b == Qabs (b - a).
Proof.
  destruct (Qlt_le_dec b a) as [H|H].
  - rewrite (Q.max_l a b), (Q.min_r a b) by (apply Qlt_le_weak; exact H).
    rewrite Qabs_neg.
    + ring.
    + apply Qlt_le_weak in H. apply (Qplus_le_l _ _ a). ring_simplify. exact H.
  - rewrite (Q.max_r a b), (Q.min_l a b) by exact H.
    rewrite Qabs_pos; [reflexivity|].
    apply (Qplus_le_l _ _ a). ring_simplify. exact H.
Qed.

(** X2: the bounding box of an element with end points (a line, arrow,
    rectangle or circle) is the box spanned by its two corners, whatever
    the direction of the drag: it contains both corners and its sides are
    the absolute extents. *)
Theorem bounds_of_shape (e : CanvasElement) (ex ey : Q) :
  isPath (type e) = false -> endX e = Some ex -> endY e = Some ey ->
  let b := getElementBounds e in
  (minX b <= x e /\ x e <= maxX b /\ minY b <= y e /\ y e <= maxY b)
  /\ (minX b <= ex /\ ex <= maxX b /\ minY b <= ey /\ ey <= maxY b)
  /\ maxX b - minX b == Qabs (ex - x e)
  /\ maxY b - minY b == Qabs (ey - y e).
Proof.
  intros Ht Hx Hy b. subst b. unfold getElementBounds. rewrite Ht, Hx, Hy.
  cbn [minX maxX minY maxY].
  repeat split;
    try apply Q.le_min_l; try apply Q.le_min_r;
    try apply Q.le_max_l; try apply Q.le_max_r;
    apply Qmax_minus_Qmin.
Qed.

Lemma bounds_of_shape_witness :
  let e := mkElement "a" Arrow 5 7 (Some (-3)) (Some 9) None None "#000000" 3 None None in
  let b := getElementBounds e in
  maxX b - minX b == 8 /\ maxY b - minY b == 2.
Proof.
  intros e b.
  destruct (bounds_of_shape e (-3) 9 eq_refl eq_refl eq_refl) as (_ & _ & Hw & Hh).
  split; [exact (Qeq_trans _ _ _ Hw eq_refl) | exact (Qeq_trans _ _ _ Hh eq_refl)].
Defined.

(** ** Hit testing, continued *)

Lemma Qleb_le (a b : Q) : Qleb a b = true <-> a <= b.
Proof. apply Qle_bool_iff. Qed.

Lemma Qgeb_le (a b : Q) : Qgeb a b = true <-> b <= a.
Proof. apply Qle_bool_iff. Qed.

Lemma Qltb_lt (a b : Q) : Qltb a b = true <-> a < b.
Proof. exact (Qgtb_lt b a). Qed.

Lemma insideBounds_iff (wx wy : Q) (b : Bounds) :
  insideBounds wx wy b = true <->
  minX b <= wx /\ wx <= maxX b /\ minY b <= wy /\ wy <= maxY b.
Proof.
  unfold insideBounds. rewrite !andb_true_iff, !Qgeb_le, !Qleb_le. tauto.
Qed.

Lemma inside_not_outside (wx wy t : Q) (b : Bounds) :
  0 <= t -> insideBounds wx wy b = true -> outsideBounds wx wy b t = false.
Proof.
  intros Ht Hin. apply insideBounds_iff in Hin as (H1 & H2 & H3 & H4).
  unfold outsideBounds.
  assert (L : forall a c, a <= c -> Qltb c (a - t) = false).
  { intros a c Hac. destruct (Qltb c (a - t)) eqn:E; [|reflexivity].
    apply Qltb_lt in E. lra. }
  assert (G : forall a c, c <= a -> Qgtb c (a + t) = false).
  { intros a c Hac. destruct (Qgtb c (a + t)) eqn:E; [|reflexivity].
    apply Qgtb_lt in E. lra. }
  now rewrite (L _ _ H1), (G _ _ H2), (L _ _ H3), (G _ _ H4).
Qed.

(** X3: a rectangle and a text are hit exactly inside their bounding
    box: with a non-negative threshold the coarse rejection never fires
    on a point of the box, and the threshold plays no part. *)
Theorem filled_element_hit_is_box (sqrt : Q -> Q) (wx wy t : Q) (e : CanvasElement) :
  0 <= t ->
  (type e = Rectangle /\ endX e <> None /\ endY e <> None)
  \/ (type e = Text /\ exists txt, text e = Some txt /\ truthy txt = true) ->
  hitsElement sqrt wx wy t e = insideBounds wx wy (getElementBounds e).
Proof.
  intros Ht Hk. unfold hitsElement.
  assert (Hd : detailedHit sqrt wx wy e t = insideBounds wx wy (getElementBounds e)).
  { unfold detailedHit.
    destruct Hk as [(Hty & Hx & Hy)|(Hty & txt & Htx & Htr)]; rewrite Hty.
    - destruct (endX e); [|congruence]. destruct (endY e); [|congruence].
      now destruct (points e).
    - rewrite Htx, Htr. now destruct (points e), (endX e), (endY e). }
  rewrite Hd.
  destruct (insideBounds wx wy (getElementBounds e)) eqn:Hin.
  - now rewrite (inside_not_outside _ _ _ _ Ht Hin).
  - now destruct (outsideBounds wx wy (getElementBounds e) t).
Qed.

Lemma filled_element_hit_is_box_witness :
  hitsElement Qsqrt 0 0 5 sampleRect = true
  /\ hitsElement Qsqrt 21 0 5 sampleRect = false.
Proof.
  split.
  - rewrite (filled_element_hit_is_box Qsqrt 0 0 5 sampleRect);
      [reflexivity | discriminate | left; repeat split; discriminate].
  - rewrite (filled_element_hit_is_box Qsqrt 21 0 5 sampleRect);
      [reflexivity | discriminate | left; repeat split; discriminate].
Defined.

(** X4: the hit test only returns an element of the document that is
    hit, and it returns nothing exactly when no element is hit. *)
Theorem hitTest_sound_complete (sqrt : Q -> Q) (wx wy t : Q) (els : list CanvasElement) :
  (forall e, getElementAtPosition sqrt wx wy els t = Some e ->
             In e els /\ hitsElement sqrt wx wy t e = true)
  /\ (getElementAtPosition sqrt wx wy els t = None <->
      forall e, In e els -> hitsElement sqrt wx wy t e = false).
Proof.
  rewrite getElementAtPosition_find. split.
  - intros e H. apply find_some in H as [Hin Hh]. split; [|exact Hh].
    now apply in_rev.
  - split.
    + intros H e Hin. apply (find_none _ _ H). now apply in_rev in Hin.
    + intros H. destruct (find (hitsElement sqrt wx wy t) (rev els)) as [e|] eqn:E;
        [|reflexivity].
      apply find_some in E as [Hin Hh]. apply in_rev in Hin.
      rewrite (H e Hin) in Hh. discriminate.
Qed.

Lemma Qmin_mid (a b : Q) : Qmin a b == (a + b) / 2 - Qabs (b - a) / 2.
Proof.
  destruct (Qlt_le_dec b a) as [H|H].
  - rewrite (Q.min_r a b) by lra. rewrite Qabs_neg by lra. field.
  - rewrite (Q.min_l a b) by exact H. rewrite Qabs_pos by lra. field.
Qed.

Lemma Qmax_mid (a b : Q) : Qmax a b == (a + b) / 2 + Qabs (b - a) / 2.
Proof.
  destruct (Qlt_le_dec b a) as [H|H].
  - rewrite (Q.max_l a b) by lra. rewrite Qabs_neg by lra. field.
  - rewrite (Q.max_r a b) by exact H. rewrite Qabs_pos by lra. field.
Qed.

Lemma detailedHit_circle (sqrt : Q -> Q) (wx wy t : Q) (e : CanvasElement) (ex ey : Q) :
  type e = Circle -> endX e = Some ex -> endY e = Some ey ->
  detailedHit sqrt wx wy e t
  = Qleb (Qabs (sqrt ((wx - (x e + ex) / 2) ^ 2 + (wy - (y e + ey) / 2) ^ 2)
                - Qmax (Qabs (ex - x e) / 2) (Qabs (ey - y e) / 2))) t.
Proof.
  intros Ht Hx Hy. unfold detailedHit. rewrite Ht, Hx, Hy.
  destruct (points e); reflexivity.
Qed.

(** X5: the circle that is drawn and hit-tested for a circle element has
    the larger semi-axis of the dragged box as its radius: the square
    around it contains the bounding box of the element and touches it on
    the longer side, and the type test of the hit test accepts exactly
    the points whose distance to that circle is within the threshold. *)
Theorem circle_covers_bounds (e : CanvasElement) (cx cy r : Q) :
  circleGeometry e = Some (cx, cy, r) ->
  let b := getElementBounds e in
  cx - r <= minX b /\ maxX b <= cx + r /\ cy - r <= minY b /\ maxY b <= cy + r
  /\ 0 <= r
  /\ (maxX b - minX b <= 2 * r /\ maxY b - minY b <= 2 * r)
  /\ (maxX b - minX b == 2 * r \/ maxY b - minY b == 2 * r)
  /\ (forall (sqrt : Q -> Q) (wx wy t : Q),
        detailedHit sqrt wx wy e t
        = Qleb (Qabs (sqrt ((wx - cx) ^ 2 + (wy - cy) ^ 2) - r)) t).
Proof.
  intros H b. subst b. unfold circleGeometry in H.
  destruct (type e) eqn:Ht; try discriminate.
  destruct (endX e) as [ex|] eqn:Hx; try discriminate.
  destruct (endY e) as [ey|] eqn:Hy; try discriminate.
  pose proof (f_equal (fun o => match o with Some (a, _, _) => a | None => 0 end) H) as H1.
  pose proof (f_equal (fun o => match o with Some (_, a, _) => a | None => 0 end) H) as H2.
  pose proof (f_equal (fun o => match o with Some (_, _, a) => a | None => 0 end) H) as H3.
  cbv beta iota in H1, H2, H3. clear H. subst cx cy r.
  assert (Hhit : forall (sqrt : Q -> Q) (wx wy t : Q),
             detailedHit sqrt wx wy e t
             = Qleb (Qabs (sqrt ((wx - (x e + ex) / 2) ^ 2 + (wy - (y e + ey) / 2) ^ 2)
                           - Qmax (Qabs (ex - x e) / 2) (Qabs (ey - y e) / 2))) t).
  { intros sqrt wx wy t. exact (detailedHit_circle sqrt wx wy t e ex ey Ht Hx Hy). }
  unfold getElementBounds. rewrite Ht, Hx, Hy. cbn [isPath minX maxX minY maxY].
  rewrite (Qmin_mid (x e) ex), (Qmax_mid (x e) ex), (Qmin_mid (y e) ey), (Qmax_mid (y e) ey).
  assert (Hrx : 0 <= Qabs (ex - x e) / 2).
  { unfold Qdiv. apply Qmult_le_0_compat; [apply Qabs_nonneg | discriminate]. }
  pose proof (Q.le_max_l (Qabs (ex - x e) / 2) (Qabs (ey - y e) / 2)) as L1.
  pose proof (Q.le_max_r (Qabs (ex - x e) / 2) (Qabs (ey - y e) / 2)) as L2.
  assert (Hd : Qabs (ex - x e) / 2 == Qmax (Qabs (ex - x e) / 2) (Qabs (ey - y e) / 2)
               \/ Qabs (ey - y e) / 2
                  == Qmax (Qabs (ex - x e) / 2) (Qabs (ey - y e) / 2)).
  { destruct (Q.max_dec (Qabs (ex - x e) / 2) (Qabs (ey - y e) / 2)) as [E|E];
      rewrite E; [left|right]; reflexivity. }
  do 6 (split; [try lra; split; lra|]).
  split; [|exact Hhit].
  clear Hhit.
  set (rx := Qabs (ex - x e) / 2) in *. set (ry := Qabs (ey - y e) / 2) in *.
  set (m := Qmax rx ry) in *. clearbody m rx ry.
  destruct Hd; [left|right]; lra.
Qed.

Lemma circle_covers_bounds_witness :
  let b := getElementBounds sampleEllipse in
  circleGeometry sampleEllipse = Some (0 # 2, 0 # 2, 20 # 2)
  /\ - (10) <= minY b /\ maxY b <= 10 /\ maxY b - minY b <= 20.
Proof.
  intros b. split; [reflexivity|].
  destruct (circle_covers_bounds sampleEllipse (0 # 2) (0 # 2) (20 # 2) eq_refl)
    as (_ & _ & H3 & H4 & _ & (_ & H6) & _).
  fold b in H3, H4, H6. repeat split; lra.
Defined.

(** ** Distance to a segment *)

Lemma square_nonneg (c : Q) : 0 <= c * c.
Proof.
  destruct (Qlt_le_dec c 0) as [H|H].
  - setoid_replace (c * c) with ((- c) * (- c)) by ring.
    apply Qmult_le_0_compat; lra.
  - now apply Qmult_le_0_compat.
Qed.

Lemma sum_squares_zero (c d : Q) : c * c + d * d == 0 -> c == 0 /\ d == 0.
Proof.
  intros H. pose proof (square_nonneg c). pose proof (square_nonneg d).
  assert (Hc : c * c == 0) by lra. assert (Hd : d * d == 0) by lra.
  split; [destruct (Qmult_integral _ _ Hc) | destruct (Qmult_integral _ _ Hd)];
    assumption.
Qed.

(** The parameter of the nearest point, and the inequality that makes it
    the nearest. *)
Lemma closest_cases (px py x1 y1 x2 y2 : Q) :
  exists s, 0 <= s /\ s <= 1
    /\ ptX (closestOnSegment px py x1 y1 x2 y2) == x1 + s * (x2 - x1)
    /\ ptY (closestOnSegment px py x1 y1 x2 y2) == y1 + s * (y2 - y1)
    /\ forall t, 0 <= t -> t <= 1 ->
         0 <= (t - s) * (t + s) * ((x2 - x1) * (x2 - x1) + (y2 - y1) * (y2 - y1))
              - 2 * (t - s) * ((px - x1) * (x2 - x1) + (py - y1) * (y2 - y1)).
Proof.
  unfold closestOnSegment. cbn [ptX ptY].
  set (dot := (px - x1) * (x2 - x1) + (py - y1) * (y2 - y1)).
  set (lenSq := (x2 - x1) * (x2 - x1) + (y2 - y1) * (y2 - y1)).
  assert (Hge : 0 <= lenSq).
  { unfold lenSq. pose proof (square_nonneg (x2 - x1)).
    pose proof (square_nonneg (y2 - y1)). lra. }
  destruct (Qeq_bool lenSq 0) eqn:Hz; cbn [negb].
  - (* a segment of length zero *)
    apply Qeq_bool_iff in Hz.
    replace (Qltb (- (1)) 0) with true by reflexivity.
    exists 0. repeat split; try lra.
    intros t Ht0 Ht1.
    destruct (sum_squares_zero _ _ Hz) as [Hc Hd].
    unfold dot. rewrite Hz, Hc, Hd. ring_simplify. apply Qle_refl.
  - assert (Hpos : 0 < lenSq).
    { apply Qeq_bool_neq in Hz. lra. }
    assert (Hp : (dot / lenSq) * lenSq == dot) by (field; lra).
    set (p := dot / lenSq) in *.
    destruct (Qltb p 0) eqn:Hlt.
    + apply Qltb_lt in Hlt. exists 0. repeat split; try lra.
      intros t Ht0 Ht1.
      assert (Hd : 0 <= - dot).
      { rewrite <- Hp.
        setoid_replace (- (p * lenSq)) with ((- p) * lenSq) by ring.
        apply Qmult_le_0_compat; lra. }
      setoid_replace ((t - 0) * (t + 0) * lenSq - 2 * (t - 0) * dot)
        with (t * (t * lenSq) + 2 * (t * (- dot))) by ring.
      pose proof (Qmult_le_0_compat _ _ Ht0 (Qmult_le_0_compat _ _ Ht0 Hge)).
      pose proof (Qmult_le_0_compat _ _ Ht0 Hd). lra.
    + assert (Hp0 : 0 <= p).
      { destruct (Qlt_le_dec p 0) as [H|H]; [|exact H].
        apply Qltb_lt in H. congruence. }
      destruct (Qgtb p 1) eqn:Hgt.
      * apply Qgtb_lt in Hgt. exists 1. repeat split; try lra.
        intros t Ht0 Ht1.
        assert (Hd : 0 <= dot - lenSq).
        { rewrite <- Hp.
          setoid_replace (p * lenSq - lenSq) with ((p - 1) * lenSq) by ring.
          apply Qmult_le_0_compat; lra. }
        setoid_replace ((t - 1) * (t + 1) * lenSq - 2 * (t - 1) * dot)
          with ((1 - t) * ((1 - t) * lenSq) + 2 * ((1 - t) * (dot - lenSq))) by ring.
        assert (H1t : 0 <= 1 - t) by lra.
        pose proof (Qmult_le_0_compat _ _ H1t (Qmult_le_0_compat _ _ H1t Hge)).
        pose proof (Qmult_le_0_compat _ _ H1t Hd). lra.
      * assert (Hp1 : p <= 1).
        { destruct (Qlt_le_dec 1 p) as [H|H]; [|exact H].
          apply Qgtb_lt in H. congruence. }
        exists p. repeat split; try lra.
        intros t Ht0 Ht1.
        setoid_replace ((t - p) * (t + p) * lenSq - 2 * (t - p) * dot)
          with ((t - p) * (t - p) * lenSq + 2 * (t - p) * (p * lenSq - dot)) by ring.
        rewrite Hp.
        setoid_replace ((t - p) * (t - p) * lenSq + 2 * (t - p) * (dot - dot))
          with ((t - p) * (t - p) * lenSq) by ring.
        apply Qmult_le_0_compat; [apply square_nonneg | exact Hge].
Qed.

Lemma distSq_along (px py x1 y1 c d s t : Q) :
  0 <= (t - s) * (t + s) * (c * c + d * d)
       - 2 * (t - s) * ((px - x1) * c + (py - y1) * d) ->
  distSq px py (x1 + s * c) (y1 + s * d) <= distSq px py (x1 + t * c) (y1 + t * d).
Proof.
  intros H. unfold distSq. apply Qle_minus_iff.
  match goal with
  | |- 0 <= ?e =>
      setoid_replace e
        with ((t - s) * (t + s) * (c * c + d * d)
              - 2 * (t - s) * ((px - x1) * c + (py - y1) * d)) by ring
  end.
  exact H.
Qed.

Lemma distSq_wd (px py a b a' b' : Q) :
  a == a' -> b == b' -> distSq px py a b == distSq px py a' b'.
Proof. intros Ha Hb. unfold distSq. now rewrite Ha, Hb. Qed.

(** X6: [pointToLineDistance] is the distance to the point of the
    segment that is nearest to the given point: the point it measures to
    lies on the segment (an end point when the projection falls outside,
    the start point when the segment has no length), and no point of the
    segment is nearer. *)
Theorem pointToLineDistance_nearest (sqrt : Q -> Q) (px py x1 y1 x2 y2 : Q) :
  let f := closestOnSegment px py x1 y1 x2 y2 in
  pointToLineDistance sqrt px py x1 y1 x2 y2 = sqrt (distSq px py (ptX f) (ptY f))
  /\ (exists s, 0 <= s /\ s <= 1
                /\ ptX f == x1 + s * (x2 - x1) /\ ptY f == y1 + s * (y2 - y1))
  /\ (forall t, 0 <= t -> t <= 1 ->
        distSq px py (ptX f) (ptY f)
        <= distSq px py (x1 + t * (x2 - x1)) (y1 + t * (y2 - y1))).
Proof.
  intros f. split; [reflexivity|].
  destruct (closest_cases px py x1 y1 x2 y2) as (s & Hs0 & Hs1 & Hx & Hy & Hmin).
  fold f in Hx, Hy.
  split; [exists s; repeat split; assumption|].
  intros t Ht0 Ht1. specialize (Hmin t Ht0 Ht1).
  rewrite (distSq_wd px py _ _ _ _ Hx Hy).
  now apply distSq_along.
Qed.

Lemma pointToLineDistance_nearest_witness :
  pointToLineDistance Qsqrt 3 4 0 0 0 0 == 5
  /\ distSq 5 5 (ptX (closestOnSegment 5 5 0 0 10 0)) (ptY (closestOnSegment 5 5 0 0 10 0))
     <= distSq 5 5 (0 + (1 # 4) * (10 - 0)) (0 + (1 # 4) * (0 - 0)).
Proof.
  split; [vm_compute; reflexivity|].
  apply (proj2 (proj2 (pointToLineDistance_nearest Qsqrt 5 5 0 0 10 0)) (1 # 4));
    discriminate.
Defined.

(** ** The view *)

Lemma handleStart_pan (sqrt : Q -> Q) (env : Env) (e : PointerEvent) (s : State) :
  startsPan env e = true ->
  handleStart sqrt env e s
  = set_lastMousePos (getPointerPos env e) (set_isPanning true s).
Proof.
  unfold startsPan, handleStart. intros H. now rewrite H.
Qed.

Lemma handleMove_panning (env : Env) (m : PointerEvent) (s : State) :
  isPanning s = true ->
  handleMove env m s
  = set_lastMousePos (getPointerPos env m)
      (set_transform
         {| scale := scale (transform s);
            offset :=
              mkPoint (ptX (offset (transform s))
                       + (ptX (getPointerPos env m) - ptX (lastMousePos s)))
                      (ptY (offset (transform s))
                       + (ptY (getPointerPos env m) - ptY (lastMousePos s))) |} s).
Proof. intros H. unfold handleMove. now rewrite H. Qed.

Lemma last_cons {A} (l : list A) : forall a d, last (a :: l) d = last l a.
Proof.
  induction l as [|b l IH]; intros a d; [reflexivity|].
  change (last (a :: b :: l) d) with (last (b :: l) d).
  now rewrite !IH.
Qed.

Lemma pan_invariant (env : Env) (ms : list PointerEvent) : forall (s : State),
  isPanning s = true ->
  let s' := moves env ms s in
  isPanning s' = true
  /\ scale (transform s') = scale (transform s)
  /\ Point_equiv (worldAt (lastMousePos s') s') (worldAt (lastMousePos s) s)
  /\ lastMousePos s' = last (map (getPointerPos env) ms) (lastMousePos s)
  /\ elements s' = elements s /\ historyState s' = historyState s
  /\ saveCalls s' = saveCalls s.
Proof.
  induction ms as [|m ms IH]; intros s Hp.
  - cbn [moves fold_left]. repeat split; try reflexivity. exact Hp.
  - change (moves env (m :: ms) s) with (moves env ms (handleMove env m s)).
    rewrite (handleMove_panning env m s Hp).
    match goal with |- context [moves env ms ?s1] =>
      destruct (IH s1 Hp) as (I1 & I2 & (I3x & I3y) & I4 & I5 & I6 & I7)
    end.
    cbv zeta. split; [exact I1|]. split; [rewrite I2; reflexivity|].
    split; [|split; [|split; [|split]]].
    + unfold Point_equiv. rewrite I3x, I3y. unfold worldAt, screenToWorld.
      cbn [ptX ptY scale offset transform lastMousePos set_lastMousePos set_transform].
      unfold Qdiv. split; ring.
    + rewrite I4. cbn [lastMousePos set_lastMousePos map].
      now rewrite last_cons.
    + rewrite I5. reflexivity.
    + rewrite I6. reflexivity.
    + rewrite I7. reflexivity.
Qed.

(** X7: while the view is panned with the pointer, the world point under
    the pointer stays the one that was grabbed at pointer-down; the scale,
    the document and the history are not touched and nothing is saved. *)
Theorem pan_carries_grabbed_point (sqrt : Q -> Q) (env : Env) (e0 : PointerEvent)
        (ms : list PointerEvent) (s : State) :
  startsPan env e0 = true ->
  let s' := moves env ms (handleStart sqrt env e0 s) in
  let pointer := last (map (getPointerPos env) ms) (getPointerPos env e0) in
  Point_equiv (worldAt pointer s') (worldAt (getPointerPos env e0) s)
  /\ scale (transform s') = scale (transform s)
  /\ elements s' = elements s /\ historyState s' = historyState s
  /\ saveCalls s' = saveCalls s
  /\ isPanning (handleEnd s') = false
  /\ transform (handleEnd s') = transform s'.
Proof.
  intros Hpan s' pointer. subst s' pointer.
  rewrite (handleStart_pan sqrt env e0 s Hpan).
  match goal with |- context [moves env ms ?s1] =>
    destruct (pan_invariant env ms s1 eq_refl) as (I1 & I2 & I3 & I4 & I5 & I6 & I7);
    set (s2 := moves env ms s1) in *
  end.
  cbn [lastMousePos set_lastMousePos] in I3, I4.
  rewrite <- I4.
  split; [exact I3|]. split; [exact I2|]. split; [exact I5|]. split; [exact I6|].
  split; [exact I7|].
  unfold handleEnd. rewrite I1. split; reflexivity.
Qed.

Lemma pan_carries_grabbed_point_witness :
  let env := sampleEnv ToolPan in
  let s' := moves env [mouseAt 30 40; mouseAt 70 10]
                  (handleStart Qsqrt env (mouseAt 10 10) (initialState None)) in
  Point_equiv (worldAt (mkPoint 70 10) s') (worldAt (mkPoint 10 10) (initialState None)).
Proof.
  intros env s'.
  exact (proj1 (pan_carries_grabbed_point Qsqrt env (mouseAt 10 10)
                  [mouseAt 30 40; mouseAt 70 10] (initialState None) eq_refl)).
Defined.

(** X8: a wheel event without Ctrl moves the view by the wheel deltas
    (in device pixels) and keeps the scale: every canvas point then shows
    the world point that was [delta * dpr / scale] further on. *)
Theorem wheel_pan_shifts_view (env : Env) (rect : Rect) (e : WheelEvent) (s : State)
        (p : Point) :
  canvas env = Some rect -> ctrlKey e = false ->
  let s' := handleWheel env e s in
  scale (transform s') = scale (transform s)
  /\ ptX (worldAt p s') == ptX (worldAt p s) + deltaX e * dpr env / scale (transform s)
  /\ ptY (worldAt p s') == ptY (worldAt p s) + deltaY e * dpr env / scale (transform s)
  /\ elements s' = elements s /\ historyState s' = historyState s.
Proof.
  intros Hc Hk s'. subst s'. unfold handleWheel. rewrite Hc, Hk.
  unfold worldAt, screenToWorld.
  cbn [ptX ptY scale offset transform set_transform elements].
  unfold Qdiv. repeat split; ring.
Qed.

Lemma wheel_pan_shifts_view_witness :
  let s' := handleWheel (sampleEnv ToolPen) (mkWheel false 20 (-30) 0 0) (initialState None) in
  ptX (worldAt (mkPoint 0 0) s') == 20 /\ ptY (worldAt (mkPoint 0 0) s') == - (30).
Proof.
  intros s'.
  destruct (wheel_pan_shifts_view (sampleEnv ToolPen) (mkRect 0 0)
              (mkWheel false 20 (-30) 0 0) (initialState None) (mkPoint 0 0)
              eq_refl eq_refl) as (_ & Hx & Hy & _).
  split; [exact (Qeq_trans _ _ _ Hx eq_refl) | exact (Qeq_trans _ _ _ Hy eq_refl)].
Defined.

Lemma saveToHistory_transform (s : State) : transform (saveToHistory s) = transform s.
Proof. apply (saveToHistory_frame s). Qed.

Lemma handleStart_transform (sqrt : Q -> Q) (env : Env) (e : PointerEvent) (s : State) :
  transform (handleStart sqrt env e s) = transform s.
Proof.
  unfold handleStart.
  destruct (tool env); cbn [Tool_eqb orb isPathTool shapeType];
    break_goal; reflexivity.
Qed.

Lemma handleEnd_transform (s : State) : transform (handleEnd s) = transform s.
Proof.
  unfold handleEnd.
  destruct (isPanning s); [reflexivity|].
  destruct (isDragging s).
  - rewrite saveToHistory_set_isDragging.
    generalize (saveToHistory_transform s). generalize (saveToHistory s).
    intros z Hz.
    cbn [transform set_currentElement debouncedSave set_saveCalls set_elements
         set_isDragging set_isDrawing].
    exact Hz.
  - destruct (if isDrawing s then currentElement s else None) as [cur|]; [|reflexivity].
    destruct (isValid cur); [|reflexivity].
    rewrite saveToHistory_set_isDrawing.
    generalize (saveToHistory_transform s). generalize (saveToHistory s).
    intros z Hz.
    cbn [transform set_currentElement debouncedSave set_saveCalls set_elements
         set_isDragging set_isDrawing].
    exact Hz.
Qed.

Lemma handleTextCommit_transform (env : Env) (txt : string) (s : State) :
  transform (handleTextCommit env txt s) = transform s.
Proof.
  unfold handleTextCommit.
  destruct (textInputState s); [|reflexivity].
  destruct (negb (truthy (trim txt))); [reflexivity|].
  destruct (canvas env); [|reflexivity].
  generalize (saveToHistory_transform s). generalize (saveToHistory s).
  intros z Hz.
  cbn [transform set_textInputState set_selectedElementId debouncedSave
       set_saveCalls set_elements].
  exact Hz.
Qed.

Lemma handleDelete_transform (s : State) : transform (handleDelete s) = transform s.
Proof.
  unfold handleDelete. destruct (selectedId s); [|reflexivity].
  generalize (saveToHistory_transform s). generalize (saveToHistory s).
  intros z Hz.
  cbn [transform set_textInputState set_selectedElementId debouncedSave
       set_saveCalls set_elements].
  exact Hz.
Qed.

Lemma handleUndo_transform (s : State) : transform (handleUndo s) = transform s.
Proof. unfold handleUndo. break_goal; reflexivity. Qed.

Lemma handleRedo_transform (s : State) : transform (handleRedo s) = transform s.
Proof. unfold handleRedo. break_goal; reflexivity. Qed.

Lemma handleMove_scale (env : Env) (e : PointerEvent) (s : State) :
  scale (transform (handleMove env e s)) = scale (transform s).
Proof.
  unfold handleMove.
  destruct (isPanning s); [reflexivity|].
  destruct (if isDragging s then selectedId s else None); [reflexivity|].
  destruct (if isDrawing s then currentElement s else None) as [cur|]; [|reflexivity].
  destruct (ElementType_eqb (type cur) Pencil), (points cur), (endX cur), (endY cur);
    reflexivity.
Qed.

Lemma handleWheel_scale (env : Env) (e : WheelEvent) (s : State) :
  scaleInRange s -> scaleInRange (handleWheel env e s).
Proof.
  intros Hs. unfold handleWheel, scaleInRange.
  destruct (canvas env); [|exact Hs].
  destruct (ctrlKey e); cbn [transform set_transform scale]; [|exact Hs].
  apply zoom_scale_bounds.
Qed.

Lemma step_scale (sqrt : Q -> Q) (env : Env) (ev : Event) (s : State) :
  scaleInRange s -> scaleInRange (step sqrt env ev s).
Proof.
  intros Hs. unfold scaleInRange in *.
  destruct ev as [e|e| |txt| | | | |e| |]; cbn [step].
  - now rewrite handleStart_transform.
  - now rewrite handleMove_scale.
  - now rewrite handleEnd_transform.
  - now rewrite handleTextCommit_transform.
  - exact Hs.
  - now rewrite handleDelete_transform.
  - exact Hs.
  - exact Hs.
  - now apply handleWheel_scale.
  - now rewrite handleUndo_transform.
  - now rewrite handleRedo_transform.
Qed.

(** X9: whatever the events, the scale of a board that starts within the
    zoom limits [0.1, 10] stays within them, so it is always positive;
    the board starts at scale 1 and [resetView] returns to it. *)
Theorem scale_stays_in_range (sqrt : Q -> Q) (tr : list (Env * Event)) (s : State) :
  scaleInRange s ->
  scaleInRange (run sqrt tr s) /\ 0 < scale (transform (run sqrt tr s))
  /\ scaleInRange (resetView (run sqrt tr s)).
Proof.
  revert s. induction tr as [|[env ev] tr IH]; intros s Hs.
  - cbn [run]. split; [exact Hs|]. split; [|split; discriminate].
    destruct Hs as [H _]. eapply Qlt_le_trans; [|exact H]. reflexivity.
  - cbn [run]. apply IH. now apply step_scale.
Qed.

Lemma scale_stays_in_range_witness :
  let tr := [ (sampleEnv ToolPen, Wheel (mkWheel true 0 (-100000) 5 5));
              (sampleEnv ToolPen, Wheel (mkWheel true 0 100000 5 5));
              (sampleEnv ToolPan, PointerDown (mouseAt 0 0));
              (sampleEnv ToolPan, PointerMove (mouseAt 9 9)) ] in
  scaleInRange (run Qsqrt tr (initialState None)).
Proof.
  intros tr.
  apply (scale_stays_in_range Qsqrt tr (initialState None)).
  split; discriminate.
Defined.

(** ** The text overlay *)

Lemma dpr_nonzero (env : Env) : ~ dpr env == 0.
Proof.
  unfold dpr. destruct (Qeq_bool (devicePixelRatio env) 0) eqn:E.
  - discriminate.
  - now apply Qeq_bool_neq.
Qed.

(** X10: a press with the text tool opens the overlay exactly at the
    pointer (the client position of the press, through the round trip
    screen to world to screen) and anchors it at the world point under the
    pointer; the document and the history are untouched. *)
Theorem text_overlay_opens_at_pointer (sqrt : Q -> Q) (env : Env) (e : PointerEvent)
        (rect : Rect) (s : State) :
  tool env = ToolText -> startsPan env e = false -> mainButton e = true ->
  canvas env = Some rect -> 0 < scale (transform s) ->
  let s' := handleStart sqrt env e s in
  exists ti,
    textInputState s' = Some ti
    /\ tiX ti == fst (clientPos e) /\ tiY ti == snd (clientPos e)
    /\ mkPoint (worldX ti) (worldY ti) = worldAt (getPointerPos env e) s
    /\ elementId ti = None
    /\ elements s' = elements s /\ historyState s' = historyState s
    /\ isDrawing s' = isDrawing s.
Proof.
  intros Ht Hpan Hb Hc Hs s'. subst s'.
  assert (Hn : ~ scale (transform s) == 0) by lra.
  pose proof (dpr_nonzero env) as Hd.
  unfold handleStart. unfold startsPan in Hpan. rewrite Hpan, Ht, Hc.
  cbn [Tool_eqb].
  assert (Hob : (match e with MouseEvent _ _ _ _ => true | TouchEvent _ _ => false end
                 && match e with MouseEvent b _ _ _ => negb (b =? 0)%Z
                            | TouchEvent _ _ => false end)%bool = false).
  { destruct e as [b sh cx cy|cx cy]; [|reflexivity].
    cbn [mainButton] in Hb. now rewrite Hb. }
  rewrite Hob. eexists. split; [reflexivity|].
  cbn [tiX tiY worldX worldY elementId].
  unfold worldAt, getPointerPos. rewrite Hc.
  destruct (clientPos e) as [cx cy]. cbn [fst snd ptX ptY worldToScreen screenToWorld].
  repeat split; try reflexivity; field; auto.
Qed.

Lemma text_overlay_opens_at_pointer_witness :
  let env := mkEnv ToolText "#000000" 3 "1" (Some (mkRect 15 25)) 2 in
  let s := handleWheel env (mkWheel true 0 (-500) 40 40) (initialState None) in
  exists ti, textInputState (handleStart Qsqrt env (mouseAt 130 90) s) = Some ti
             /\ tiX ti == 130 /\ tiY ti == 90.
Proof.
  intros env s.
  destruct (text_overlay_opens_at_pointer Qsqrt env (mouseAt 130 90) (mkRect 15 25) s
              eq_refl eq_refl eq_refl eq_refl eq_refl)
    as (ti & H1 & H2 & H3 & _).
  exists ti. repeat split; assumption.
Defined.

(** ** More on the history *)

Lemma saveToHistory_index (s : State) :
  historyIndex (saveToHistory s) = lengthZ (history (saveToHistory s))
  /\ (1 <= lengthZ (history (saveToHistory s)))%Z.
Proof.
  unfold saveToHistory.
  destruct (historyIndex s <? lengthZ (history s))%Z;
    cbn [history historyIndex set_history set_historyIndex];
    match goal with
    | |- context [(lengthZ (?l ++ [?a]) >? MAX_HISTORY_STEPS)%Z] =>
        pose proof (lengthZ_app l [a]) as Hl;
        pose proof (lengthZ_nonneg l) as Hn;
        change (lengthZ [a]) with 1%Z in Hl;
        assert (Hne : l ++ [a] <> []) by (now destruct l);
        pose proof (lengthZ_tl _ Hne) as Ht;
        destruct (Z.gtb_spec (lengthZ (l ++ [a])) MAX_HISTORY_STEPS) as [Hg|Hg]
    end;
    cbn [history historyIndex set_history set_historyIndex set_redoStack
         set_redoCount set_undoCount];
    unfold MAX_HISTORY_STEPS in *; split; lia.
Qed.

Lemma historyState_index (s s' : State) :
  historyState s' = historyState (saveToHistory s) ->
  historyIndex s' = lengthZ (history s') /\ (1 <= lengthZ (history s'))%Z
  /\ redoStack s' = [].
Proof.
  intros H. destruct (historyState_inv _ _ H) as (H1 & H2 & H3).
  rewrite H1, H2, H3. destruct (saveToHistory_index s) as [A B].
  split; [exact A|]. split; [exact B|]. apply (saveToHistory_frame s).
Qed.

Lemma step_index (sqrt : Q -> Q) (env : Env) (ev : Event) (s : State) :
  indexInBounds s -> indexInBounds (step sqrt env ev s).
Proof.
  intros Hs. unfold indexInBounds in *.
  destruct (isEdit ev) eqn:Hev.
  - pose proof (step_effect sqrt env ev s Hev) as He.
    destruct (commitKind env ev s); cbn [stepEffect] in He; destruct He as (Hh & _);
      try (destruct (historyState_inv _ _ Hh) as (H1 & H2 & _); rewrite H1, H2; exact Hs);
      destruct (historyState_index _ _ Hh) as (A & B & _); lia.
  - destruct ev; try discriminate; cbn [step].
    + destruct (Z_le_gt_dec (historyIndex s) 0) as [Hz|Hp].
      * now rewrite handleUndo_at_zero.
      * destruct (handleUndo_fields s) as (Hh & Hi & _); [lia|].
        rewrite Hh, Hi. lia.
    + destruct (redoStack s) as [|d r] eqn:Hr.
      * now rewrite handleRedo_empty.
      * destruct (exists_last (l := d :: r)) as (r' & a & Hra); [discriminate|].
        rewrite Hra in Hr.
        destruct (handleRedo_snoc s r' a Hr) as (_ & _ & Hh & Hi).
        rewrite Hh, Hi. pose proof (lengthZ_nonneg (history s ++ [a])). lia.
Qed.

(** X11: whatever the events (undo and redo included), the history
    index stays between 0 and the length of the history. *)
Theorem index_stays_in_bounds (sqrt : Q -> Q) (tr : list (Env * Event)) (s : State) :
  indexInBounds s -> indexInBounds (run sqrt tr s).
Proof.
  revert s. induction tr as [|[env ev] tr IH]; intros s Hs; [exact Hs|].
  cbn [run]. apply IH. now apply step_index.
Qed.

Lemma index_stays_in_bounds_witness :
  indexInBounds
    (run Qsqrt (strokeTrace ++ [(penEnv, Undo); (penEnv, Undo); (penEnv, Undo);
                                (penEnv, Redo)] ++ strokeTrace)
         (initialState None)).
Proof.
  apply index_stays_in_bounds. unfold indexInBounds, lengthZ. simpl. lia.
Defined.

(** X12: a commit that takes a snapshot (a stroke, shape or text, a drag,
    a delete) leaves no redo: the redo stack is empty afterwards,
    whatever it held, and [handleRedo] changes nothing. *)
Theorem commit_invalidates_redo (sqrt : Q -> Q) (env : Env) (ev : Event) (s : State) :
  isEdit ev = true ->
  takesSnapshot (commitKind env ev s) = true ->
  redoStack (step sqrt env ev s) = []
  /\ handleRedo (step sqrt env ev s) = step sqrt env ev s.
Proof.
  intros Hev Hk.
  pose proof (step_effect sqrt env ev s Hev) as He.
  assert (Hr : redoStack (step sqrt env ev s) = []).
  { destruct (commitKind env ev s); try discriminate; cbn [stepEffect] in He;
      destruct He as (Hh & _); apply (historyState_index _ _ Hh). }
  split; [exact Hr | now apply handleRedo_empty].
Qed.

Lemma commit_invalidates_redo_witness :
  let s := handleMove penEnv (mouseAt 10 10)
             (handleStart Qsqrt penEnv (mouseAt 0 0)
                (handleUndo (run Qsqrt strokeTrace (initialState None)))) in
  redoStack s <> []
  /\ redoStack (step Qsqrt penEnv PointerUp s) = []
  /\ handleRedo (step Qsqrt penEnv PointerUp s) = step Qsqrt penEnv PointerUp s.
Proof.
  intros s. split; [vm_compute; discriminate|].
  apply (commit_invalidates_redo Qsqrt penEnv PointerUp s); vm_compute; reflexivity.
Defined.

Lemma undo_redo_fields (s : State) :
  (0 < historyIndex s)%Z ->
  elements (handleRedo (handleUndo s)) = elements s
  /\ redoStack (handleRedo (handleUndo s)) = redoStack s
  /\ history (handleRedo (handleUndo s)) = history s ++ [elements s]
  /\ historyIndex (handleRedo (handleUndo s)) = (lengthZ (history s) + 1)%Z.
Proof.
  intros Hi.
  destruct (handleUndo_fields s Hi) as (Hh & _ & Hr & _).
  destruct (handleRedo_snoc (handleUndo s) (redoStack s) (elements s) Hr)
    as (R1 & R2 & R3 & R4).
  rewrite Hh in R3, R4. rewrite lengthZ_app in R4.
  repeat split; assumption.
Qed.

(** X13: one undo followed by one redo restores the document and the
    redo stack, provided the index was positive; the history gains an
    entry, a copy of the document. *)
Theorem undo_then_redo_once (s : State) :
  (0 < historyIndex s)%Z ->
  elements (handleRedo (handleUndo s)) = elements s
  /\ redoStack (handleRedo (handleUndo s)) = redoStack s
  /\ history (handleRedo (handleUndo s)) = history s ++ [elements s]
  /\ historyIndex (handleRedo (handleUndo s)) = (lengthZ (history s) + 1)%Z.
Proof. exact (undo_redo_fields s). Qed.

Lemma undo_then_redo_once_witness :
  let s := run Qsqrt (strokeTrace ++ strokeTrace) (initialState None) in
  elements (handleRedo (handleUndo s)) = elements s.
Proof.
  intros s. apply (undo_then_redo_once s). reflexivity.
Defined.

Lemma atEnd_snapshot (s s' : State) :
  atEndOfHistory s ->
  historyState s' = historyState (saveToHistory s) ->
  atEndOfHistory s'.
Proof.
  intros (Hi & Hl) Hs.
  destruct (saveToHistory_historyState s s' Hi Hs) as (E1 & E2 & _).
  unfold atEndOfHistory. split; [rewrite E1; exact E2|].
  assert (Hlen : lengthZ (history s ++ [elements s])
                 = Z.of_nat (List.length (history s) + 1)).
  { unfold lengthZ. now rewrite length_app. }
  rewrite Hlen in E1. unfold MAX_HISTORY_STEPS in E1. rewrite E1.
  destruct (Z.gtb_spec (Z.of_nat (List.length (history s) + 1)) 50).
  - destruct (history s) as [|d h]; [simpl in Hl; lia|].
    cbn [app tl]. rewrite length_app. simpl List.length in *. lia.
  - rewrite length_app. simpl List.length. lia.
Qed.

Lemma atEnd_run (sqrt : Q -> Q) (tr : list (Env * Event)) : forall s : State,
  atEndOfHistory s -> editsOnly tr = true -> atEndOfHistory (run sqrt tr s).
Proof.
  induction tr as [|[env ev] tr IH]; intros s Hs Hed; [exact Hs|].
  simpl in Hed. apply andb_prop in Hed as [Hev Hed].
  cbn [run]. apply IH; [|exact Hed].
  pose proof (step_effect sqrt env ev s Hev) as He.
  destruct (commitKind env ev s); cbn [stepEffect] in He; destruct He as (Hh & _);
    try (now apply (atEnd_snapshot s));
    destruct (historyState_inv _ _ Hh) as (H1 & H2 & _);
    unfold atEndOfHistory; rewrite H1, H2; exact Hs.
Qed.

(** X14: on a board where no undo is pending, no run of edit events
    makes the history longer than 50 snapshots or empties it.  The bound
    is kept by [saveToHistory] alone: [handleRedo] appends its snapshot
    without dropping the oldest one. *)
Theorem history_capacity (sqrt : Q -> Q) (tr : list (Env * Event)) (s : State) :
  atEndOfHistory s -> editsOnly tr = true ->
  (1 <= List.length (history (run sqrt tr s)) <= 50)%nat
  /\ historyIndex (run sqrt tr s) = lengthZ (history (run sqrt tr s))
  /\ (0 < historyIndex (run sqrt tr s))%Z
  /\ List.length (history (handleRedo (handleUndo (run sqrt tr s))))
     = S (List.length (history (run sqrt tr s))).
Proof.
  intros Hs Hed.
  destruct (atEnd_run sqrt tr s Hs Hed) as (Hi & Hl).
  assert (Hpos : (0 < historyIndex (run sqrt tr s))%Z).
  { rewrite Hi. unfold lengthZ. lia. }
  repeat split; try assumption; try lia.
  destruct (undo_redo_fields _ Hpos) as (_ & _ & Hh & _).
  rewrite Hh, length_app. simpl. lia.
Qed.

Lemma history_capacity_witness :
  let s := run Qsqrt sixtyStrokes (initialState None) in
  (1 <= List.length (history s) <= 50)%nat
  /\ List.length (history (handleRedo (handleUndo s))) = 51%nat.
Proof.
  intros s.
  destruct (history_capacity Qsqrt sixtyStrokes (initialState None)) as (H1 & _ & _ & H4).
  - split; [reflexivity | simpl; lia].
  - vm_compute. reflexivity.
  - fold s in H1, H4. split; [exact H1|]. rewrite H4. vm_compute. reflexivity.
Defined.

Lemma last_error_snoc {A} (l : list A) (a : A) : last_error (l ++ [a]) = Some a.
Proof. unfold last_error. now rewrite rev_app_distr. Qed.

Lemma last_error_tl {A} (l : list A) :
  (2 <= List.length l)%nat -> last_error (tl l) = last_error l.
Proof.
  destruct l as [|a l]; [reflexivity|]. cbn [tl]. intros H.
  destruct (exists_last (l := l)) as (m & z & ->).
  { intros ->. simpl in H. lia. }
  change (a :: m ++ [z]) with ((a :: m) ++ [z]). now rewrite !last_error_snoc.
Qed.

(** X15: with no undo pending, a commit that takes a snapshot puts the
    document as it stands at the commit at the end of the history, and one
    undo right after it shows the entry before that one: the last entry
    that the history held before the commit. *)
Theorem undo_after_commit_shows_older_snapshot
        (sqrt : Q -> Q) (env : Env) (ev : Event) (s : State) :
  atEndOfHistory s -> isEdit ev = true ->
  takesSnapshot (commitKind env ev s) = true ->
  last_error (history (step sqrt env ev s)) = Some (elements s)
  /\ exists older,
      last_error (history s) = Some older
      /\ elements (handleUndo (step sqrt env ev s)) = older.
Proof.
  intros (Hi & Hl) Hev Hk.
  pose proof (step_effect sqrt env ev s Hev) as He.
  assert (Hh : historyState (step sqrt env ev s) = historyState (saveToHistory s)).
  { destruct (commitKind env ev s); try discriminate; exact (proj1 He). }
  clear He.
  destruct (saveToHistory_historyState s _ Hi Hh) as (E1 & E2 & _).
  split.
  { rewrite E1.
    destruct (lengthZ (history s ++ [elements s]) >? MAX_HISTORY_STEPS)%Z.
    - rewrite last_error_tl; [apply last_error_snoc|].
      rewrite length_app. simpl. lia.
    - apply last_error_snoc. }
  destruct (exists_last (l := history s)) as (h & older & Hlast).
  { intros E. rewrite E in Hl. simpl in Hl. lia. }
  exists older. split.
  { unfold last_error. now rewrite Hlast, rev_app_distr. }
  set (s' := step sqrt env ev s) in *.
  destruct (handleUndo_fields s') as (_ & _ & _ & Hel).
  { rewrite E2. apply Z.lt_le_trans with 1%Z; [lia|].
    destruct (historyState_index _ _ Hh) as (A & B & _). rewrite <- E2, A. exact B. }
  rewrite Hel, E2, E1.
  assert (Hlen : lengthZ (history s ++ [elements s])
                 = Z.of_nat (List.length (history s) + 1)).
  { unfold lengthZ. now rewrite length_app. }
  rewrite Hlen. unfold MAX_HISTORY_STEPS.
  rewrite Hlast in *. rewrite length_app in *. simpl List.length in *.
  rewrite <- app_assoc. cbn [app].
  destruct (Z.gtb_spec (Z.of_nat (List.length h + 1 + 1)) 50) as [Hfull|Hroom].
  - (* the oldest entry was dropped *)
    destruct h as [|d0 h']; [simpl in Hfull; lia|].
    cbn [app tl]. unfold lengthZ. rewrite length_app. simpl List.length.
    rewrite lookup_nonneg by lia.
    replace (Z.to_nat (Z.of_nat (List.length h' + 2) - 2)) with (List.length h') by lia.
    rewrite nth_error_app2 by lia. now rewrite Nat.sub_diag.
  - unfold lengthZ. rewrite length_app. simpl List.length.
    rewrite lookup_nonneg by lia.
    replace (Z.to_nat (Z.of_nat (List.length h + 2) - 2)) with (List.length h) by lia.
    rewrite nth_error_app2 by lia. now rewrite Nat.sub_diag.
Qed.

Lemma undo_after_commit_shows_older_snapshot_witness :
  let s := handleMove penEnv (mouseAt 10 10)
             (handleStart Qsqrt penEnv (mouseAt 0 0)
                (run Qsqrt strokeTrace (initialState None))) in
  elements s = [sampleStroke1]
  /\ last_error (history (step Qsqrt penEnv PointerUp s)) = Some (elements s)
  /\ exists older, last_error (history s) = Some older
                   /\ elements (handleUndo (step Qsqrt penEnv PointerUp s)) = older.
Proof.
  intros s. split; [vm_compute; reflexivity|].
  apply (undo_after_commit_shows_older_snapshot Qsqrt penEnv PointerUp s).
  - split; [reflexivity | simpl; lia].
  - reflexivity.
  - vm_compute. reflexivity.
Defined.

(** ** More on the document *)

Lemma saveToHistory_selectedElementId (s : State) :
  selectedElementId (saveToHistory s) = selectedElementId s.
Proof. apply (saveToHistory_frame s). Qed.

Lemma handleEnd_saveCalls (s : State) :
  saveCalls (handleEnd s)
  = (saveCalls s
     + if takesSnapshot (commitKind (sampleEnv ToolPen) PointerUp s) then 1 else 0)%nat.
Proof.
  unfold handleEnd. cbn [commitKind].
  destruct (isPanning s); [cbn; lia|].
  destruct (isDragging s).
  - rewrite saveToHistory_set_isDragging.
    generalize (saveToHistory_saveCalls s). generalize (saveToHistory s).
    intros z Hz.
    cbn [saveCalls debouncedSave set_saveCalls set_isDragging takesSnapshot].
    rewrite Hz. lia.
  - destruct (if isDrawing s then currentElement s else None) as [cur|]; [|cbn; lia].
    destruct (isValid cur); [|cbn; lia].
    rewrite saveToHistory_set_isDrawing.
    generalize (saveToHistory_saveCalls s). generalize (saveToHistory s).
    intros z Hz.
    cbn [saveCalls debouncedSave set_saveCalls set_isDrawing set_elements
         set_currentElement takesSnapshot].
    rewrite Hz. lia.
Qed.

(** X16: an edit event requests a save (one call of [debouncedSave])
    exactly when it commits with a snapshot: a stroke, shape or text, the
    end of a drag, a delete.  The moves of a drag, and the Clear button,
    change the document without a save. *)
Theorem save_requested_at_snapshot_commits
        (sqrt : Q -> Q) (env : Env) (ev : Event) (s : State) :
  isEdit ev = true ->
  saveCalls (step sqrt env ev s)
  = (saveCalls s + if takesSnapshot (commitKind env ev s) then 1 else 0)%nat.
Proof.
  intros Hev. destruct ev as [e|e| |txt| | | | |e| |]; try discriminate; cbn [step].
  - cbn [commitKind takesSnapshot].
    rewrite (proj2 (proj2 (handleStart_frame sqrt env e s))). lia.
  - cbn [commitKind takesSnapshot].
    rewrite (proj2 (proj2 (handleMove_frame env e s))). lia.
  - exact (handleEnd_saveCalls s).
  - unfold handleTextCommit. cbn [commitKind].
    destruct (textInputState s); [|cbn; lia].
    destruct (canvas env).
    + destruct (truthy (trim txt)); cbn [negb]; [|cbn; lia].
      generalize (saveToHistory_saveCalls s). generalize (saveToHistory s).
      intros z Hz.
      cbn [saveCalls debouncedSave set_saveCalls set_elements set_textInputState
           takesSnapshot].
      rewrite Hz. lia.
    + destruct (truthy (trim txt)); cbn; lia.
  - cbn. lia.
  - unfold handleDelete. cbn [commitKind].
    destruct (selectedId s); [|cbn; lia].
    generalize (saveToHistory_saveCalls s). generalize (saveToHistory s).
    intros z Hz.
    cbn [saveCalls debouncedSave set_saveCalls set_elements set_selectedElementId
         takesSnapshot].
    rewrite Hz. lia.
  - cbn. lia.
  - cbn. lia.
  - unfold handleWheel. cbn [commitKind takesSnapshot].
    destruct (canvas env); [destruct (ctrlKey e)|]; cbn; lia.
Qed.

Lemma save_requested_at_snapshot_commits_witness :
  let s := run Qsqrt strokeTrace (initialState None) in
  saveCalls s = 1%nat
  /\ saveCalls (step Qsqrt penEnv ClearButton s) = saveCalls s.
Proof.
  intros s. split; [reflexivity|].
  rewrite (save_requested_at_snapshot_commits Qsqrt penEnv ClearButton s eq_refl).
  reflexivity.
Defined.

Lemma selectedId_cleared (s : State) :
  selectedElementId s = None -> selectedId s = None.
Proof. unfold selectedId. now intros ->. Qed.

(** X17: with an element selected, [handleDelete] removes every element
    that carries the selected id and keeps the others in their order,
    clears the selection, and a second call does nothing; without a
    selection it does nothing at all. *)
Theorem delete_removes_selected (s : State) :
  (forall sel, selectedId s = Some sel ->
     elements (handleDelete s)
     = filter (fun el => negb (String.eqb (id el) sel)) (elements s)
     /\ (forall e, In e (elements (handleDelete s))
                   <-> In e (elements s) /\ id e <> sel)
     /\ selectedElementId (handleDelete s) = None
     /\ handleDelete (handleDelete s) = handleDelete s)
  /\ (selectedId s = None -> handleDelete s = s).
Proof.
  split.
  - intros sel Hsel.
    assert (He : elements (handleDelete s)
                 = filter (fun el => negb (String.eqb (id el) sel)) (elements s)).
    { unfold handleDelete. rewrite Hsel.
      generalize (saveToHistory_elements s). generalize (saveToHistory s).
      intros z Hz.
      cbn [elements debouncedSave set_saveCalls set_elements set_selectedElementId].
      now rewrite Hz. }
    assert (Hn : selectedElementId (handleDelete s) = None).
    { unfold handleDelete. rewrite Hsel. reflexivity. }
    split; [exact He|]. split; [|split; [exact Hn|]].
    + intros e. rewrite He, filter_In, negb_true_iff. split.
      * intros [Hin Hne]. split; [exact Hin|].
        intros E. apply String.eqb_eq in E. congruence.
      * intros [Hin Hne]. split; [exact Hin|].
        destruct (String.eqb (id e) sel) eqn:E; [|reflexivity].
        apply String.eqb_eq in E. contradiction.
    + generalize (selectedId_cleared _ Hn). generalize (handleDelete s).
      intros z Hz. unfold handleDelete. now rewrite Hz.
  - intros Hnone. unfold handleDelete. now rewrite Hnone.
Qed.

Lemma delete_removes_selected_witness :
  let s := set_selectedElementId (Some "r"%string)
             (initialState (Some [sampleRect; sampleStroke; sampleRect])) in
  elements (handleDelete s) = [sampleStroke].
Proof.
  intros s.
  rewrite (proj1 (proj1 (delete_removes_selected s) "r"%string eq_refl)).
  reflexivity.
Defined.

Lemma handleEnd_nocommit_elements (s : State) :
  commitKind (sampleEnv ToolPen) PointerUp s = NoCommit ->
  elements (handleEnd s) = elements s.
Proof.
  unfold handleEnd. cbn [commitKind].
  destruct (isPanning s); [reflexivity|].
  destruct (isDragging s); [discriminate|].
  destruct (if isDrawing s then currentElement s else None) as [cur|]; [|reflexivity].
  destruct (isValid cur); [discriminate | reflexivity].
Qed.

(** X18: the document only changes at a commit or while the selected
    element is dragged: every other edit event (a press, a move that pans
    or extends the element in progress, a release or a text entry that
    commits nothing, a key, a wheel turn) leaves it exactly as it was. *)
Theorem document_changes_only_at_commits
        (sqrt : Q -> Q) (env : Env) (ev : Event) (s : State) :
  isEdit ev = true ->
  commitKind env ev s = NoCommit ->
  isDragMove ev s = false ->
  elements (step sqrt env ev s) = elements s
  /\ historyState (step sqrt env ev s) = historyState s.
Proof.
  intros Hev Hk Hd.
  pose proof (step_effect sqrt env ev s Hev) as He. rewrite Hk in He.
  split; [|exact (proj1 He)]. clear He.
  destruct ev as [e|e| |txt| | | | |e| |]; try discriminate; cbn [step].
  - apply (handleStart_frame sqrt env e s).
  - cbn [isDragMove] in Hd. unfold handleMove.
    destruct (isPanning s); [reflexivity|].
    destruct (isDragging s); cbn [negb andb] in Hd.
    + destruct (selectedId s); [discriminate|].
      destruct (if isDrawing s then currentElement s else None) as [cur|]; [|reflexivity].
      destruct (ElementType_eqb (type cur) Pencil), (points cur), (endX cur), (endY cur);
        reflexivity.
    + destruct (if isDrawing s then currentElement s else None) as [cur|]; [|reflexivity].
      destruct (ElementType_eqb (type cur) Pencil), (points cur), (endX cur), (endY cur);
        reflexivity.
  - now apply handleEnd_nocommit_elements.
  - unfold handleTextCommit. cbn [commitKind] in Hk.
    destruct (textInputState s); [|reflexivity].
    destruct (canvas env).
    + destruct (truthy (trim txt)); [discriminate | reflexivity].
    + destruct (truthy (trim txt)); reflexivity.
  - reflexivity.
  - unfold handleDelete. cbn [commitKind] in Hk.
    destruct (selectedId s); [discriminate | reflexivity].
  - reflexivity.
  - unfold handleWheel. destruct (canvas env); [destruct (ctrlKey e)|]; reflexivity.
Qed.

Lemma document_changes_only_at_commits_witness :
  let s := handleStart Qsqrt penEnv (mouseAt 0 0)
             (run Qsqrt strokeTrace (initialState None)) in
  elements (step Qsqrt penEnv (PointerMove (mouseAt 10 10)) s) = [sampleStroke1].
Proof.
  intros s.
  rewrite (proj1 (document_changes_only_at_commits
                    Qsqrt penEnv (PointerMove (mouseAt 10 10)) s
                    eq_refl eq_refl eq_refl)).
  reflexivity.
Defined.

(** ** Selecting and dragging *)

Lemma find_first_of_hit (p : CanvasElement -> bool) (l : Document) (h : CanvasElement) :
  In h l -> p h = true -> exists el, find p l = Some el /\ p el = true.
Proof.
  intros Hin Hp. destruct (find p l) as [el|] eqn:E.
  - exists el. split; [reflexivity|]. now apply find_some in E.
  - rewrite (find_none _ _ E h Hin) in Hp. discriminate.
Qed.

Lemma handleStart_select (sqrt : Q -> Q) (env : Env) (e : PointerEvent) (s : State) :
  tool env = ToolSelect -> startsPan env e = false -> mainButton e = true ->
  handleStart sqrt env e s
  = match getElementAtPosition sqrt (ptX (worldAt (getPointerPos env e) s))
                               (ptY (worldAt (getPointerPos env e) s))
                               (elements s) (5 / scale (transform s)) with
    | Some hitElement =>
        let s1 := set_dragStartPos (worldAt (getPointerPos env e) s)
                    (set_isDragging true
                       (set_selectedElementId (Some (id hitElement)) s)) in
        match find (fun el => String.eqb (id el) (id hitElement)) (elements s) with
        | Some element => set_dragElementStartPos (captureGeometry element) s1
        | None => s1
        end
    | None => set_isDrawing true (set_selectedElementId None s)
    end.
Proof.
  intros Ht Hpan Hb. unfold handleStart, worldAt, captureGeometry.
  unfold startsPan in Hpan. rewrite Hpan, Ht. cbn [Tool_eqb isPathTool shapeType].
  assert (Hob : (match e with MouseEvent _ _ _ _ => true | TouchEvent _ _ => false end
                 && match e with MouseEvent b _ _ _ => negb (b =? 0)%Z
                            | TouchEvent _ _ => false end)%bool = false).
  { destruct e as [b sh cx cy|cx cy]; [|reflexivity].
    cbn [mainButton] in Hb. now rewrite Hb. }
  rewrite Hob.
  destruct (getElementAtPosition sqrt _ _ (elements s) _) as [h|]; [|reflexivity].
  cbn [elements set_dragStartPos set_isDragging set_selectedElementId].
  now destruct (find _ (elements s)).
Qed.

Lemma handleEnd_dragging (s : State) :
  isPanning s = false -> isDragging s = true ->
  handleEnd s = debouncedSave (saveToHistory (set_isDragging false s)).
Proof. intros Hp Hd. unfold handleEnd. now rewrite Hp, Hd. Qed.

(** X19: with the select tool, a press on an element selects the topmost
    element under the pointer, and the release that follows commits a
    snapshot and requests a save although the document has not changed; a
    press on no element clears the selection and commits nothing. *)
Theorem select_click (sqrt : Q -> Q) (env : Env) (e : PointerEvent) (s : State) :
  idle s ->
  tool env = ToolSelect -> startsPan env e = false -> mainButton e = true ->
  let hit := getElementAtPosition sqrt (ptX (worldAt (getPointerPos env e) s))
                                  (ptY (worldAt (getPointerPos env e) s))
                                  (elements s) (5 / scale (transform s)) in
  let s' := handleEnd (handleStart sqrt env e s) in
  (forall h, hit = Some h ->
     selectedElementId s' = Some (id h)
     /\ elements s' = elements s
     /\ historyState s' = historyState (saveToHistory s)
     /\ saveCalls s' = S (saveCalls s)
     /\ isDragging s' = false)
  /\ (hit = None ->
      selectedElementId s' = None
      /\ elements s' = elements s
      /\ historyState s' = historyState s
      /\ saveCalls s' = saveCalls s).
Proof.
  intros (Hp & Hd & Hw & Hc) Ht Hpan Hb hit s'. subst hit s'.
  rewrite (handleStart_select sqrt env e s Ht Hpan Hb).
  destruct (getElementAtPosition sqrt _ _ (elements s) _) as [h|].
  - split; [|discriminate]. intros h' E. injection E as <-.
    cbv zeta.
    match goal with
    | |- context [handleEnd ?s1] =>
        assert (E1 : handleEnd s1
                     = debouncedSave (saveToHistory (set_isDragging false s1)))
    end.
    { apply handleEnd_dragging; destruct (find _ (elements s)); assumption || reflexivity. }
    rewrite E1.
    assert (Es : historyState
                   (saveToHistory
                      (set_isDragging false
                         match find (fun el => String.eqb (id el) (id h)) (elements s) with
                         | Some element =>
                             set_dragElementStartPos (captureGeometry element)
                               (set_dragStartPos (worldAt (getPointerPos env e) s)
                                  (set_isDragging true
                                     (set_selectedElementId (Some (id h)) s)))
                         | None =>
                             set_dragStartPos (worldAt (getPointerPos env e) s)
                               (set_isDragging true
                                  (set_selectedElementId (Some (id h)) s))
                         end))
                 = historyState (saveToHistory s)).
    { apply saveToHistory_ext; destruct (find _ (elements s)); reflexivity. }
    rewrite historyState_debouncedSave, Es.
    match goal with
    | |- context [saveToHistory ?s1] =>
        generalize (saveToHistory_frame s1); generalize (saveToHistory s1)
    end.
    intros z (F1 & _ & F3 & _ & _ & _ & F7 & _ & F9 & _).
    cbn [selectedElementId elements saveCalls isDragging debouncedSave set_saveCalls].
    rewrite F1, F3, F7, F9.
    destruct (find _ (elements s)); repeat split; reflexivity.
  - split; [discriminate|]. intros _.
    match goal with
    | |- context [handleEnd ?s1] =>
        assert (E1 : handleEnd s1 = s1)
          by (unfold handleEnd;
              cbn [isPanning isDragging isDrawing currentElement set_isDrawing
                   set_selectedElementId];
              now rewrite Hp, Hd, Hc)
    end.
    rewrite E1. repeat split.
Qed.

Lemma select_click_witness :
  selectedElementId
    (handleEnd (handleStart Qsqrt (sampleEnv ToolSelect) (mouseAt 0 0)
                            (initialState (Some [sampleRect]))))
  = Some "r"%string.
Proof.
  refine (proj1 (proj1 (select_click Qsqrt (sampleEnv ToolSelect) (mouseAt 0 0)
                                     (initialState (Some [sampleRect]))
                                     _ _ _ _) sampleRect _)).
  - repeat split.
  - reflexivity.
  - reflexivity.
  - reflexivity.
  - vm_compute. reflexivity.
Defined.

Lemma updateFirst_twice (p : CanvasElement -> bool)
      (f g : CanvasElement -> CanvasElement) (l : Document) (e0 : CanvasElement) :
  find p l = Some e0 -> p (f e0) = true -> g (f e0) = g e0 ->
  updateFirst p g (updateFirst p f l) = updateFirst p g l.
Proof.
  intros Hf Hp Hg. induction l as [|a r IH]; [reflexivity|].
  cbn [find] in Hf. cbn [updateFirst].
  destruct (p a) eqn:Ea.
  - injection Hf as ->. cbn [updateFirst]. now rewrite Hp, Hg.
  - cbn [updateFirst]. rewrite Ea. f_equal. now apply IH.
Qed.

Lemma dragElement_id (start : DragStart) (dx dy : Q) (e : CanvasElement) :
  id (dragElement start dx dy e) = id e.
Proof.
  unfold dragElement.
  destruct e as [i t ex ey [a|] [b|] [pts|] tx c sz ff fs];
    destruct (dsPoints start); reflexivity.
Qed.

Lemma dragElement_captured (e0 : CanvasElement) (dx1 dy1 dx2 dy2 : Q) :
  dragElement (captureGeometry e0) dx2 dy2
              (dragElement (captureGeometry e0) dx1 dy1 e0)
  = dragElement (captureGeometry e0) dx2 dy2 e0.
Proof.
  destruct e0 as [i t ex ey [a|] [b|] [pts|] tx c sz ff fs]; reflexivity.
Qed.

Lemma handleMove_dragging (env : Env) (m : PointerEvent) (s : State)
      (sel : string) (grab : Point) (start : DragStart) (t : Transform) :
  dragging sel grab start t s -> truthy sel = true ->
  handleMove env m s
  = set_elements
      (updateFirst (fun el => String.eqb (id el) sel)
         (dragElement start
            (ptX (screenToWorld (ptX (getPointerPos env m)) (ptY (getPointerPos env m))
                                (scale t) (offset t)) - ptX grab)
            (ptY (screenToWorld (ptX (getPointerPos env m)) (ptY (getPointerPos env m))
                                (scale t) (offset t)) - ptY grab))
         (elements s)) s.
Proof.
  intros (Hp & Hd & Hs & Hg & Hst & Ht) Htr.
  unfold handleMove, selectedId. rewrite Hp, Hd, Hs, Htr, Hg, Hst, Ht. reflexivity.
Qed.

Lemma dragging_set_elements (sel : string) (grab : Point) (start : DragStart)
      (t : Transform) (l : Document) (s : State) :
  dragging sel grab start t s -> dragging sel grab start t (set_elements l s).
Proof. intros H. exact H. Qed.

Lemma moves_dragging (env : Env) (sel : string) (grab : Point) (e0 : CanvasElement)
      (t : Transform) (base : Document) (ms : list PointerEvent) (s : State) :
  truthy sel = true ->
  find (fun el => String.eqb (id el) sel) base = Some e0 ->
  dragging sel grab (captureGeometry e0) t s ->
  (forall dx dy,
     updateFirst (fun el => String.eqb (id el) sel)
                 (dragElement (captureGeometry e0) dx dy) (elements s)
     = updateFirst (fun el => String.eqb (id el) sel)
                   (dragElement (captureGeometry e0) dx dy) base) ->
  dragging sel grab (captureGeometry e0) t (moves env ms s)
  /\ (forall dx dy,
        updateFirst (fun el => String.eqb (id el) sel)
                    (dragElement (captureGeometry e0) dx dy)
                    (elements (moves env ms s))
        = updateFirst (fun el => String.eqb (id el) sel)
                      (dragElement (captureGeometry e0) dx dy) base).
Proof.
  intros Htr Hf. revert s. induction ms as [|m ms IH]; intros s Hd He.
  - split; assumption.
  - unfold moves. cbn [fold_left]. fold (moves env ms (handleMove env m s)).
    rewrite (handleMove_dragging env m s sel grab _ t Hd Htr).
    apply IH.
    + apply dragging_set_elements, Hd.
    + intros dx dy. cbn [elements set_elements]. rewrite He.
      apply (updateFirst_twice _ _ _ base e0 Hf).
      * rewrite dragElement_id. now apply find_some in Hf.
      * apply dragElement_captured.
Qed.

(** X20: a drag is absolute, not cumulative.  After the select tool has
    grabbed an element, the document after any sequence of pointer moves is
    the document that the last move alone would give: every move places the
    element from the geometry captured at the press. *)
Theorem drag_is_not_cumulative (sqrt : Q -> Q) (env : Env) (e : PointerEvent)
        (s : State) (h : CanvasElement) (ms : list PointerEvent) (m : PointerEvent) :
  idle s ->
  tool env = ToolSelect -> startsPan env e = false -> mainButton e = true ->
  getElementAtPosition sqrt (ptX (worldAt (getPointerPos env e) s))
                       (ptY (worldAt (getPointerPos env e) s))
                       (elements s) (5 / scale (transform s)) = Some h ->
  elements (moves env (ms ++ [m]) (handleStart sqrt env e s))
  = elements (handleMove env m (handleStart sqrt env e s)).
Proof.
  intros (Hp & Hd & Hw & Hc) Ht Hpan Hb Hhit.
  rewrite (handleStart_select sqrt env e s Ht Hpan Hb), Hhit. cbv zeta.
  assert (Hin : In h (elements s)).
  { pose proof Hhit as Hfind. rewrite getElementAtPosition_find in Hfind.
    apply find_some in Hfind. destruct Hfind as (Hfind & _).
    now apply in_rev in Hfind. }
  destruct (find_first_of_hit (fun el => String.eqb (id el) (id h)) (elements s) h Hin
                              (String.eqb_refl _)) as (e0 & Hf & _).
  rewrite Hf.
  set (s1 := set_dragElementStartPos _ _).
  unfold moves. rewrite fold_left_app. cbn [fold_left]. fold (moves env ms s1).
  destruct (truthy (id h)) eqn:Htr.
  - assert (Hd1 : dragging (id h) (worldAt (getPointerPos env e) s)
                           (captureGeometry e0) (transform s) s1).
    { subst s1. repeat split; assumption. }
    destruct (moves_dragging env (id h) _ e0 (transform s) (elements s) ms s1
                             Htr Hf Hd1 (fun _ _ => eq_refl)) as (Hd2 & He2).
    rewrite (handleMove_dragging env m _ _ _ _ _ Hd2 Htr).
    rewrite (handleMove_dragging env m _ _ _ _ _ Hd1 Htr).
    cbn [elements set_elements]. rewrite He2. reflexivity.
  - assert (Hfix : forall st, isPanning st = false -> selectedElementId st = Some (id h) ->
                              isDrawing st = false -> forall m', handleMove env m' st = st).
    { intros st H1 H2 H3 m'. unfold handleMove, selectedId.
      rewrite H1, H2, Htr, H3. now destruct (isDragging st). }
    assert (Hms : moves env ms s1 = s1).
    { induction ms as [|m' ms IH]; [reflexivity|].
      unfold moves. cbn [fold_left]. rewrite Hfix; [exact IH| | |]; subst s1;
        assumption || reflexivity. }
    rewrite Hms. reflexivity.
Qed.

Lemma drag_is_not_cumulative_witness :
  elements (moves (sampleEnv ToolSelect) ([mouseAt 5 5] ++ [mouseAt 7 7])
                  (handleStart Qsqrt (sampleEnv ToolSelect) (mouseAt 0 0)
                               (initialState (Some [sampleRect]))))
  = elements (handleMove (sampleEnv ToolSelect) (mouseAt 7 7)
                (handleStart Qsqrt (sampleEnv ToolSelect) (mouseAt 0 0)
                             (initialState (Some [sampleRect])))).
Proof.
  apply (drag_is_not_cumulative Qsqrt (sampleEnv ToolSelect) (mouseAt 0 0)
                                (initialState (Some [sampleRect])) sampleRect).
  - repeat split.
  - reflexivity.
  - reflexivity.
  - reflexivity.
  - vm_compute. reflexivity.
Defined.

Lemma updateFirst_find (p : CanvasElement -> bool) (f : CanvasElement -> CanvasElement)
      (l : Document) (e0 : CanvasElement) :
  find p l = Some e0 -> p (f e0) = true ->
  find p (updateFirst p f l) = Some (f e0).
Proof.
  intros Hf Hp. induction l as [|a r IH]; [discriminate|].
  cbn [find] in Hf. cbn [updateFirst].
  destruct (p a) eqn:Ea.
  - injection Hf as ->. cbn [find]. now rewrite Hp.
  - cbn [find]. rewrite Ea. now apply IH.
Qed.

Lemma dragElement_origin (e0 : CanvasElement) (dx dy : Q) :
  x (dragElement (captureGeometry e0) dx dy e0) = x e0 + dx
  /\ y (dragElement (captureGeometry e0) dx dy e0) = y e0 + dy
  /\ (forall ex ey, endX e0 = Some ex -> endY e0 = Some ey ->
        endX (dragElement (captureGeometry e0) dx dy e0) = Some (ex + dx)
        /\ endY (dragElement (captureGeometry e0) dx dy e0) = Some (ey + dy))
  /\ (forall pts, points e0 = Some pts ->
        points (dragElement (captureGeometry e0) dx dy e0)
        = Some (map (fun p => mkPoint (ptX p + dx) (ptY p + dy)) pts)).
Proof.
  destruct e0 as [i t ex ey [a|] [b|] [pts|] tx c sz ff fs];
    cbn; repeat split; try discriminate; intros; try congruence.
  all: try (match goal with H : Some _ = Some _ |- _ => injection H as <- end).
  all: try (rewrite map_map; reflexivity).
  all: try (repeat match goal with H : Some _ = Some _ |- _ => injection H as <- end;
            reflexivity).
Qed.

(** X21: the dragged element follows the pointer.  After a press with the
    select tool on an element and a pointer move, the first element of the
    document with the id of the element hit has its origin, its end point
    and its path points displaced by the world distance between the move
    and the press. *)
Theorem drag_follows_pointer (sqrt : Q -> Q) (env : Env) (e m : PointerEvent)
        (s : State) (h : CanvasElement) :
  idle s ->
  tool env = ToolSelect -> startsPan env e = false -> mainButton e = true ->
  getElementAtPosition sqrt (ptX (worldAt (getPointerPos env e) s))
                       (ptY (worldAt (getPointerPos env e) s))
                       (elements s) (5 / scale (transform s)) = Some h ->
  truthy (id h) = true ->
  let dX := ptX (worldAt (getPointerPos env m) s) - ptX (worldAt (getPointerPos env e) s) in
  let dY := ptY (worldAt (getPointerPos env m) s) - ptY (worldAt (getPointerPos env e) s) in
  exists e0 e1,
    find (fun el => String.eqb (id el) (id h)) (elements s) = Some e0
    /\ find (fun el => String.eqb (id el) (id h))
             (elements (handleMove env m (handleStart sqrt env e s))) = Some e1
    /\ x e1 = x e0 + dX /\ y e1 = y e0 + dY
    /\ (forall ex ey, endX e0 = Some ex -> endY e0 = Some ey ->
          endX e1 = Some (ex + dX) /\ endY e1 = Some (ey + dY))
    /\ (forall pts, points e0 = Some pts ->
          points e1 = Some (map (fun p => mkPoint (ptX p + dX) (ptY p + dY)) pts)).
Proof.
  intros (Hp & Hd & Hw & Hc) Ht Hpan Hb Hhit Htr dX dY.
  rewrite (handleStart_select sqrt env e s Ht Hpan Hb), Hhit. cbv zeta.
  assert (Hin : In h (elements s)).
  { pose proof Hhit as Hfind. rewrite getElementAtPosition_find in Hfind.
    apply find_some in Hfind. destruct Hfind as (Hfind & _).
    now apply in_rev in Hfind. }
  destruct (find_first_of_hit (fun el => String.eqb (id el) (id h)) (elements s) h Hin
                              (String.eqb_refl _)) as (e0 & Hf & Hid).
  rewrite Hf.
  set (s1 := set_dragElementStartPos _ _).
  assert (Hd1 : dragging (id h) (worldAt (getPointerPos env e) s)
                         (captureGeometry e0) (transform s) s1).
  { subst s1. repeat split; assumption. }
  rewrite (handleMove_dragging env m _ _ _ _ _ Hd1 Htr).
  cbn [elements set_elements]. subst s1.
  cbn [elements set_dragElementStartPos set_dragStartPos set_isDragging
       set_selectedElementId].
  fold (worldAt (getPointerPos env m) s). fold dX dY.
  exists e0, (dragElement (captureGeometry e0) dX dY e0).
  destruct (dragElement_origin e0 dX dY) as (D1 & D2 & D3 & D4).
  split; [reflexivity|]. split.
  - apply updateFirst_find; [exact Hf|]. cbv beta. now rewrite dragElement_id.
  - repeat split; try assumption; apply (D3 ex ey); assumption.
Qed.

Lemma drag_follows_pointer_witness :
  exists e0 e1,
    find (fun el => String.eqb (id el) (id sampleRect)) [sampleRect] = Some e0
    /\ find (fun el => String.eqb (id el) (id sampleRect))
             (elements (handleMove (sampleEnv ToolSelect) (mouseAt 7 7)
                          (handleStart Qsqrt (sampleEnv ToolSelect) (mouseAt 0 0)
                                       (initialState (Some [sampleRect])))))
       = Some e1
    /\ x e1 = x e0 + (7 / 1 - 0 / 1).
Proof.
  destruct (drag_follows_pointer Qsqrt (sampleEnv ToolSelect) (mouseAt 0 0) (mouseAt 7 7)
                                 (initialState (Some [sampleRect])) sampleRect)
    as (e0 & e1 & H0 & H1 & Hx & _).
  - repeat split.
  - reflexivity.
  - reflexivity.
  - reflexivity.
  - vm_compute. reflexivity.
  - reflexivity.
  - exists e0, e1. repeat split; [exact H0 | exact H1 | exact Hx].
Defined.

(** ** The keyboard *)

Lemma isZ_isY_key (e : KeyboardEvent) :
  isZ e = true -> isY e = true ->
  key e = "z"%string \/ key e = "Z"%string \/ key e = "y"%string \/ key e = "Y"%string.
Proof.
  unfold isZ, isY. intros HZ HY.
  destruct (String.eqb_spec (key e) "z"); [now left|].
  destruct (String.eqb_spec (key e) "Z"); [now right; left|].
  destruct (String.eqb_spec (key e) "y"); [now right; right; left|].
  destruct (String.eqb_spec (key e) "Y"); [now right; right; right|].
  rewrite !orb_false_r in HZ, HY.
  apply String.eqb_eq in HZ. rewrite HZ in HY. discriminate.
Qed.

(** X22: a key event that counts both as Z and as Y (the [code] names one
    letter and the [key] the other, as on a keyboard layout that swaps the
    two), pressed with Ctrl or Meta and without Shift, runs the undo and
    then the redo: the document and the brush size end as they were, and
    the history has gained a copy of the document. *)
Theorem ctrl_key_both_Z_and_Y (e : KeyboardEvent) (size : Q) (s : State) :
  (keyCtrl e || keyMeta e)%bool = true -> keyShift e = false ->
  isZ e = true -> isY e = true ->
  (0 < historyIndex s)%Z ->
  handleKeyDown e size s = (handleRedo (handleUndo s), size)
  /\ elements (fst (handleKeyDown e size s)) = elements s
  /\ history (fst (handleKeyDown e size s)) = history s ++ [elements s].
Proof.
  intros Hc Hs HZ HY Hi.
  assert (E : handleKeyDown e size s = (handleRedo (handleUndo s), size)).
  { unfold handleKeyDown. rewrite Hc, Hs, HZ, HY. cbn [negb andb orb].
    destruct (isZ_isY_key e HZ HY) as [K|[K|[K|K]]]; rewrite K; reflexivity. }
  rewrite E. cbn [fst].
  destruct (handleUndo_fields s Hi) as (Hh & _ & Hr & _).
  destruct (handleRedo_snoc (handleUndo s) (redoStack s) (elements s) Hr)
    as (_ & R2 & R3 & _).
  rewrite Hh in R3. split; [reflexivity|]. split; assumption.
Qed.

Lemma ctrl_key_both_Z_and_Y_witness :
  let s := run Qsqrt strokeTrace (initialState None) in
  elements (fst (handleKeyDown (mkKey "KeyY" "z" true false false) 3 s)) = elements s.
Proof.
  intros s.
  apply (ctrl_key_both_Z_and_Y (mkKey "KeyY" "z" true false false) 3 s);
    reflexivity.
Defined.

(** X23: the brush size never leaves the interval from 1 to 20 through
    the keyboard: the bracket keys move it by one, down or up, and stop at
    the ends, and no other key changes it. *)
Theorem brush_size_stays_in_range (e : KeyboardEvent) (size : Q) (s : State) :
  1 <= size <= 20 ->
  1 <= snd (handleKeyDown e size s) <= 20
  /\ (key e = "]"%string -> size == 20 -> snd (handleKeyDown e size s) == 20)
  /\ (key e = "["%string -> size == 1 -> snd (handleKeyDown e size s) == 1)
  /\ (key e <> "["%string -> key e <> "]"%string ->
      snd (handleKeyDown e size s) = size)
  /\ (key e = "]"%string -> size + 1 <= 20 ->
      snd (handleKeyDown e size s) == size + 1)
  /\ (key e = "["%string -> 1 <= size - 1 ->
      snd (handleKeyDown e size s) == size - 1).
Proof.
  intros Hsz. unfold handleKeyDown. cbn [snd].
  destruct (String.eqb_spec (key e) "[") as [K1|K1];
    destruct (String.eqb_spec (key e) "]") as [K2|K2]; cbn [orb].
  - rewrite K1 in K2. discriminate.
  - repeat split; try congruence.
    + apply Q.le_max_l.
    + apply Q.max_lub; [lra|]. apply Q.le_min_l.
    + intros _ H1. rewrite (Q.min_r 20 (size + - (1))) by lra.
      rewrite Q.max_l by lra. reflexivity.
    + intros _ H1. rewrite (Q.min_r 20 (size + - (1))) by lra.
      rewrite Q.max_r by lra. reflexivity.
  - repeat split; try congruence.
    + apply Q.le_max_l.
    + apply Q.max_lub; [lra|]. apply Q.le_min_l.
    + intros _ H20. rewrite (Q.min_l 20 (size + 1)) by lra.
      rewrite Q.max_r by lra. reflexivity.
    + intros _ H20. rewrite (Q.min_r 20 (size + 1)) by lra.
      rewrite Q.max_r by lra. reflexivity.
  - repeat split; try tauto; try congruence.
Qed.

Lemma brush_size_stays_in_range_witness :
  1 <= snd (handleKeyDown (mkKey "BracketRight" "]" false false false) 20
                          (initialState None)) <= 20
  /\ snd (handleKeyDown (mkKey "BracketRight" "]" false false false) 3
                        (initialState None)) == 4.
Proof.
  split.
  - apply (brush_size_stays_in_range (mkKey "BracketRight" "]" false false false) 20
                                      (initialState None)).
    split; discriminate.
  - apply (brush_size_stays_in_range (mkKey "BracketRight" "]" false false false) 3
                                      (initialState None)).
    + split; discriminate.
    + reflexivity.
    + discriminate.
Defined.

(** ** The selection box and the grid *)

Lemma outsideBounds_false (wx wy t : Q) (b : Bounds) :
  outsideBounds wx wy b t = false ->
  minX b - t <= wx /\ wx <= maxX b + t /\ minY b - t <= wy /\ wy <= maxY b + t.
Proof.
  unfold outsideBounds. intros H.
  apply orb_false_iff in H as [H H4]. apply orb_false_iff in H as [H H3].
  apply orb_false_iff in H as [H1 H2].
  unfold Qltb, Qgtb in *. rewrite negb_false_iff in H1, H2, H3, H4.
  apply Qle_bool_iff in H1, H2, H3, H4. repeat split; assumption.
Qed.

(** X24: every point at which a click with the select tool picks an
    element lies inside the dashed selection box that is then drawn around
    that element: the box is the bounding box grown by the hit tolerance
    of 5 screen pixels. *)
Theorem hit_lies_in_selection_box (sqrt : Q -> Q) (sc wx wy : Q) (el : CanvasElement) :
  0 < sc ->
  hitsElement sqrt wx wy (5 / sc) el = true ->
  let '(bx, by_, bw, bh) := selectionBox sc el in
  bx <= wx <= bx + bw /\ by_ <= wy <= by_ + bh.
Proof.
  intros Hs Hh. unfold hitsElement in Hh.
  destruct (outsideBounds wx wy (getElementBounds el) (5 / sc)) eqn:Ho;
    [discriminate|].
  apply outsideBounds_false in Ho. destruct Ho as (H1 & H2 & H3 & H4).
  unfold selectionBox. generalize dependent (getElementBounds el). intros b H1 H2 H3 H4.
  unfold Qdiv in *. generalize dependent (/ sc). intros i _ H1 H2 H3 H4.
  repeat split; lra.
Qed.

Lemma hit_lies_in_selection_box_witness :
  let '(bx, by_, bw, bh) := selectionBox 1 sampleRect in
  bx <= 20 <= bx + bw /\ by_ <= 0 <= by_ + bh.
Proof.
  apply (hit_lies_in_selection_box Qsqrt 1 20 0 sampleRect); reflexivity.
Defined.

Lemma gridLoop_complete (fuel : nat) :
  forall (a b : Z) (x : Q),
    x == inject_Z a * gridSpacing ->
    (b - a + 1 <= Z.of_nat fuel)%Z ->
    forall k, (a <= k <= b)%Z ->
      exists g, In g (gridLoop fuel x (inject_Z b * gridSpacing))
                /\ g == inject_Z k * gridSpacing.
Proof.
  induction fuel as [|fuel IH]; intros a b x Hx Hf k Hk; [lia|].
  cbn [gridLoop].
  assert (Hab : inject_Z a <= inject_Z b) by (rewrite <- Zle_Qle; lia).
  assert (Hle : Qleb x (inject_Z b * gridSpacing) = true).
  { apply Qle_bool_iff. rewrite Hx. unfold gridSpacing. lra. }
  rewrite Hle.
  destruct (Z.eq_dec k a) as [->|Hne].
  - exists x. split; [now left | exact Hx].
  - destruct (IH (a + 1)%Z b (x + gridSpacing)) with (k := k) as (g & Hin & Hg).
    + rewrite Hx, inject_Z_plus. ring.
    + lia.
    + lia.
    + exists g. split; [now right | exact Hg].
Qed.

Lemma gridLoop_sound (fuel : nat) :
  forall (a : Z) (x stop g : Q),
    x == inject_Z a * gridSpacing ->
    In g (gridLoop fuel x stop) ->
    exists k, (a <= k)%Z /\ g == inject_Z k * gridSpacing /\ g <= stop.
Proof.
  induction fuel as [|fuel IH]; intros a x stop g Hx Hin; [destruct Hin|].
  cbn [gridLoop] in Hin.
  destruct (Qleb x stop) eqn:Hle; [|destruct Hin].
  destruct Hin as [<-|Hin].
  - exists a. repeat split; [lia | exact Hx | now apply Qle_bool_iff].
  - destruct (IH (a + 1)%Z (x + gridSpacing) stop g) as (k & Hk & Hg & Hs).
    + rewrite Hx, inject_Z_plus. ring.
    + exact Hin.
    + exists k. repeat split; [lia | exact Hg | exact Hs].
Qed.

(** The loop stops by its own test: more iterations allowed give the
    same lines. *)
Lemma gridLoop_fuel (fuel : nat) :
  forall (n : nat) (a b : Z) (x : Q),
    x == inject_Z a * gridSpacing ->
    (b - a + 1 <= Z.of_nat fuel)%Z ->
    gridLoop (fuel + n) x (inject_Z b * gridSpacing)
    = gridLoop fuel x (inject_Z b * gridSpacing).
Proof.
  induction fuel as [|fuel IH]; intros n a b x Hx Hf.
  - cbn [Nat.add gridLoop]. destruct n as [|n]; [reflexivity|].
    cbn [gridLoop].
    assert (Hlt : Qleb x (inject_Z b * gridSpacing) = false).
    { apply not_true_iff_false. intros H. apply Qle_bool_iff in H.
      rewrite Hx in H. unfold gridSpacing in H.
      assert (inject_Z a <= inject_Z b) as Hab by lra.
      rewrite <- Zle_Qle in Hab. simpl in Hf. lia. }
    now rewrite Hlt.
  - cbn [Nat.add gridLoop]. destruct (Qleb x (inject_Z b * gridSpacing)); [|reflexivity].
    f_equal. apply (IH n (a + 1)%Z b).
    + rewrite Hx, inject_Z_plus. ring.
    + lia.
Qed.

Lemma gridLines_fuel (lo hi : Q) (n : nat) :
  gridLoop (Z.to_nat (Qceiling (hi / gridSpacing) - Qfloor (lo / gridSpacing) + 1) + n)
           (Math_floor (lo / gridSpacing) * gridSpacing)
           (Math_ceil (hi / gridSpacing) * gridSpacing)
  = gridLines lo hi.
Proof.
  unfold gridLines, Math_floor, Math_ceil.
  apply (gridLoop_fuel _ n (Qfloor (lo / gridSpacing))); [reflexivity | lia].
Qed.

Lemma gridLines_spec (lo hi : Q) :
  (forall k, lo <= inject_Z k * gridSpacing <= hi ->
     exists g, In g (gridLines lo hi) /\ g == inject_Z k * gridSpacing)
  /\ (forall g, In g (gridLines lo hi) ->
        exists k, g == inject_Z k * gridSpacing
                  /\ lo - gridSpacing < g < hi + gridSpacing).
Proof.
  split.
  - intros k [Hlo Hhi]. unfold gridLines, Math_floor, Math_ceil.
    apply (gridLoop_complete _ (Qfloor (lo / gridSpacing))); [reflexivity | lia |].
    unfold gridSpacing in *. split.
    + rewrite <- (Qfloor_Z k). apply Qfloor_resp_le.
      apply Qle_shift_div_r; [reflexivity | exact Hlo].
    + rewrite <- (Qceiling_Z k). apply Qceiling_resp_le.
      apply Qle_shift_div_l; [reflexivity | exact Hhi].
  - intros g Hin. unfold gridLines, Math_floor, Math_ceil in Hin.
    destruct (gridLoop_sound _ (Qfloor (lo / gridSpacing)) _ _ g (Qeq_refl _) Hin)
      as (k & Hk & Hg & Hs).
    exists k. split; [exact Hg|].
    pose proof (Qlt_floor (lo / gridSpacing)) as Hfl.
    pose proof (Qceiling_lt (hi / gridSpacing)) as Hcl.
    rewrite inject_Z_plus in Hfl. unfold Zminus in Hcl. rewrite inject_Z_plus in Hcl.
    assert (Hk' : inject_Z (Qfloor (lo / gridSpacing)) <= inject_Z k)
      by (now rewrite <- Zle_Qle).
    unfold gridSpacing in *.
    assert (Elo : lo == lo / 50 * 50) by (field).
    assert (Ehi : hi == hi / 50 * 50) by (field).
    change (inject_Z 1) with 1 in Hfl.
    change (inject_Z (- (1))) with (-1 # 1) in Hcl.
    set (ql := lo / 50) in *. set (qh := hi / 50) in *. clearbody ql qh.
    split; lra.
Qed.

(** X25: the grid covers the canvas.  At every positive scale, each
    multiple of the spacing of 50 that falls under a canvas point between
    two opposite edges gets its line, vertical or horizontal, and every
    line drawn is at a multiple of 50. *)
Theorem grid_covers_view (width height : Q) (env : Env) (t : Transform) :
  0 < scale t ->
  (forall (sx sy : Q) (k : Z),
     0 <= sx <= width / dpr env ->
     ptX (screenToWorld sx sy (scale t) (offset t)) == inject_Z k * gridSpacing ->
     exists g, In g (gridVertical width env t) /\ g == inject_Z k * gridSpacing)
  /\ (forall (sx sy : Q) (k : Z),
        0 <= sy <= height / dpr env ->
        ptY (screenToWorld sx sy (scale t) (offset t)) == inject_Z k * gridSpacing ->
        exists g, In g (gridHorizontal height env t) /\ g == inject_Z k * gridSpacing)
  /\ (forall g, In g (gridVertical width env t) \/ In g (gridHorizontal height env t) ->
        exists k, g == inject_Z k * gridSpacing).
Proof.
  intros Hs. unfold gridVertical, gridHorizontal. cbv zeta.
  assert (Hi : 0 < / scale t) by (now apply Qinv_lt_0_compat).
  split; [|split].
  - intros sx sy k [H0 Hw] Hk.
    apply (proj1 (gridLines_spec _ _)). rewrite <- Hk.
    cbn [screenToWorld ptX]. unfold Qdiv in *.
    set (i := / scale t) in *. set (w := width * / dpr env) in *.
    clearbody i w.
    split; apply Qmult_le_compat_r; lra.
  - intros sx sy k [H0 Hw] Hk.
    apply (proj1 (gridLines_spec _ _)). rewrite <- Hk.
    cbn [screenToWorld ptY]. unfold Qdiv in *.
    set (i := / scale t) in *. set (w := height * / dpr env) in *.
    clearbody i w.
    split; apply Qmult_le_compat_r; lra.
  - intros g [Hin|Hin];
      destruct (proj2 (gridLines_spec _ _) g Hin) as (k & Hg & _); now exists k.
Qed.

Lemma grid_covers_view_witness :
  exists g, In g (gridVertical 800 (sampleEnv ToolPen) (mkTransform 2 (mkPoint 30 0)))
            /\ g == inject_Z 3 * gridSpacing.
Proof.
  apply (proj1 (grid_covers_view 800 600 (sampleEnv ToolPen)
                                 (mkTransform 2 (mkPoint 30 0)) eq_refl) 330 0 3%Z).
  - split; discriminate.
  - reflexivity.
Defined.
